(** * TranscriptionGUI: the job controller, its worker and the event pump

    A shallow embedding of [src/main.py] (class [TranscriptionGUI]) and of the
    tables of [src/utils.py].  Python strings are modelled as [string] (ASCII
    code points), dictionaries as [gmap], the file system as a finite map from
    paths to file contents.  The third-party collaborators (moviepy,
    faster-whisper, huggingface_hub, the operating system) are black boxes:
    what they answer is read from an environment record [Env]. *)

From Stdlib Require Import ZArith Ascii.
From stdpp Require Import gmap strings list pretty.

(** ** Python string primitives used by the source *)

Module Py.

(** [c.lower()] on an ASCII code point. *)
Definition lower_char (c : ascii) : ascii :=
  let n := Ascii.N_of_ascii c in
  if ((65 <=? n) && (n <=? 90))%N then Ascii.ascii_of_N (n + 32) else c.

(** [s.lower()]. *)
Fixpoint lower (s : string) : string :=
  match s with
  | EmptyString => EmptyString
  | String c s' => String (lower_char c) (lower s')
  end.

(** [c.isspace()] for the ASCII range: TAB, LF, VT, FF, CR, the four
    separators FS GS RS US, and the blank. *)
Definition isspace (c : ascii) : bool :=
  let n := Ascii.N_of_ascii c in
  (((9 <=? n) && (n <=? 13)) || ((28 <=? n) && (n <=? 32)))%N.

(** [s.lstrip()]. *)
Fixpoint lstrip (s : string) : string :=
  match s with
  | EmptyString => EmptyString
  | String c s' => if isspace c then lstrip s' else s
  end.

(** [s.rstrip()]: a character is kept when something that is not white
    space follows it or when it is not white space itself. *)
Fixpoint rstrip (s : string) : string :=
  match s with
  | EmptyString => EmptyString
  | String c s' =>
      match rstrip s' with
      | EmptyString => if isspace c then EmptyString else String c EmptyString
      | r => String c r
      end
  end.

(** [s.strip()]. *)
Definition strip (s : string) : string := rstrip (lstrip s).

(** [s.rfind(c)] for a one-character needle: the highest index holding
    [c], or [-1]. *)
Fixpoint rfind_from (c : ascii) (s : string) (i last : Z) : Z :=
  match s with
  | EmptyString => last
  | String a s' => rfind_from c s' (i + 1) (if Ascii.eqb a c then i else last)
  end.

Definition rfind (c : ascii) (s : string) : Z := rfind_from c s 0 (-1).

(** [s[:n]] and [s[n:]] for [0 <= n]. *)
Fixpoint take (n : nat) (s : string) : string :=
  match n, s with
  | S n', String c s' => String c (take n' s')
  | _, _ => EmptyString
  end.

Fixpoint drop (n : nat) (s : string) : string :=
  match n, s with
  | S n', String _ s' => drop n' s'
  | _, _ => s
  end.

(** [s[i:j]] for [0 <= i]. *)
Definition slice (i j : Z) (s : string) : string :=
  take (Z.to_nat (j - i)) (drop (Z.to_nat i) s).

(** Whether some character of [s] differs from [c]. *)
Fixpoint has_other (c : ascii) (s : string) : bool :=
  match s with
  | EmptyString => false
  | String a s' => negb (Ascii.eqb a c) || has_other c s'
  end.

(** [genericpath._splitext(p, sep, None, extsep)]: the extension starts at
    the last dot, provided that dot comes after the last separator and that
    the file name has a character other than a dot before it (leading dots
    do not start an extension). *)
Definition _splitext (p : string) (sep extsep : ascii) : string * string :=
  let sepIndex := rfind sep p in
  let dotIndex := rfind extsep p in
  if (sepIndex <? dotIndex)%Z
  then if has_other extsep (slice (sepIndex + 1) dotIndex p)
       then (take (Z.to_nat dotIndex) p, drop (Z.to_nat dotIndex) p)
       else (p, EmptyString)
  else (p, EmptyString).

(** [os.path.splitext] and [os.path.basename], as [posixpath] has them. *)
Definition splitext (p : string) : string * string := _splitext p "/" ".".

Definition basename (p : string) : string :=
  drop (Z.to_nat (rfind "/" p + 1)) p.

(** [c in s] for a one-character [c]. *)
Fixpoint contains (c : ascii) (s : string) : bool :=
  match s with
  | EmptyString => false
  | String a s' => Ascii.eqb a c || contains c s'
  end.

(** [x in a_set_of_strings]. *)
Definition mem (x : string) (l : list string) : bool :=
  bool_decide (x ∈ l).

End Py.

(** ** [utils.py]: the static tables *)

Definition AVAILABLE_MODELS : gmap string string :=
  list_to_map
    [ ("tiny", "./models/models--Systran--faster-whisper-tiny");
      ("tiny.en", "./models/models--Systran--faster-whisper-tiny.en");
      ("base", "./models/models--Systran--faster-whisper-base");
      ("base.en", "./models/models--Systran--faster-whisper-base.en");
      ("small", "./models/models--Systran--faster-whisper-small");
      ("small.en", "./models/models--Systran--faster-whisper-small.en");
      ("medium", "./models/models--Systran--faster-whisper-medium");
      ("medium.en", "./models/models--Systran--faster-whisper-medium.en");
      ("large-v1", "./models/models--Systran--faster-whisper-large-v1");
      ("large-v2", "./models/models--Systran--faster-whisper-large-v2");
      ("large-v3", "./models/models--Systran--faster-whisper-large-v3");
      ("large", "./models/models--Systran--faster-whisper-large") ].

Definition HF_MODEL_MAPPING : gmap string string :=
  list_to_map
    [ ("tiny", "Systran/faster-whisper-tiny");
      ("tiny.en", "Systran/faster-whisper-tiny.en");
      ("base", "Systran/faster-whisper-base");
      ("base.en", "Systran/faster-whisper-base.en");
      ("small", "Systran/faster-whisper-small");
      ("small.en", "Systran/faster-whisper-small.en");
      ("medium", "Systran/faster-whisper-medium");
      ("medium.en", "Systran/faster-whisper-medium.en");
      ("large-v1", "Systran/faster-whisper-large-v1");
      ("large-v2", "Systran/faster-whisper-large-v2");
      ("large-v3", "Systran/faster-whisper-large-v3");
      ("large", "Systran/faster-whisper-large") ].

(** ** [is_video_file] *)

Definition video_extensions : list string :=
  [".mp4"; ".avi"; ".mkv"; ".mov"; ".wmv"; ".flv"; ".webm"; ".m4v"].

Definition is_video_file (file_path : string) : bool :=
  let file_ext := Py.lower (snd (Py.splitext file_path)) in
  Py.mem file_ext video_extensions.

(** ** Messages of the result queue

    [queue.Queue[tuple[str, str | None]]]: a message is a pair of a kind and
    an optional text. *)

Definition message : Type := string * option string.

Definition Status (text : string) : message := ("status", Some text).
Definition Log (text : string) : message := ("log", Some text).
Definition Error (text : string) : message := ("error", Some text).
Definition Success (text : string) : message := ("success", Some text).
Definition Finished : message := ("finished", None).

Definition is_error (m : message) : bool := bool_decide (m.1 = "error").
Definition is_finished (m : message) : bool := bool_decide (m.1 = "finished").

(** ** Exceptions *)

(** The classes of the exceptions that occur.  The first five derive from
    [Exception]; [SystemExit] and [KeyboardInterrupt] derive from
    [BaseException] only, and an [except Exception] clause lets them pass. *)
Inductive exn_class :=
  | KeyError | HFValidationError | ValueError | OSError | OtherException
  | SystemExit | KeyboardInterrupt.

(** [issubclass(c, Exception)] *)
Definition is_Exception (c : exn_class) : bool :=
  match c with
  | SystemExit | KeyboardInterrupt => false
  | _ => true
  end.

Global Instance exn_class_eq_dec : EqDecision exn_class.
Proof. solve_decision. Defined.

(** An exception object: its class and [str(e)]. *)
Record exn := Exn { exn_cls : exn_class; exn_str : string }.

(** ** The external collaborators *)

(** [video.audio] of a moviepy clip: what [write_audiofile] leaves in the
    target file, and the exception it ends with, if any. *)
Record audio_track := { demuxed : string; demux_error : option exn }.

Record clip := { audio : option audio_track }.

(** A segment of faster-whisper; only its text is read. *)
Record Segment := { text : string }.

(** The lazy sequence [segments] returned by [model.transcribe]: a generator
    that yields segments one at a time and either finishes or raises. *)
Inductive seg_stream :=
  | SEnd
  | SFail (e : exn)
  | SSeg (s : Segment) (rest : seg_stream).

(** The generator that yields the segments of [l] and goes on as [rest]. *)
Fixpoint stream_app (l : list Segment) (rest : seg_stream) : seg_stream :=
  match l with
  | [] => rest
  | s :: l' => SSeg s (stream_app l' rest)
  end.

Definition stream_of (l : list Segment) : seg_stream := stream_app l SEnd.

(** [info] of [model.transcribe]; the two floats are kept as the text that
    the [:.2f] format gives them. *)
Record TranscriptionInfo :=
  { info_language : string; language_probability_2f : string; duration_2f : string }.

(** The places where the worker reads [stop_flag.is_set()]. *)
Inductive checkpoint :=
  | CkVideo                (* line 198 *)
  | CkLoad                 (* line 208 *)
  | CkModel                (* line 228 *)
  | CkTranscribed          (* line 236 *)
  | CkSegment (i : nat)    (* line 248, iteration [i] of [enumerate(.., start=1)] *)
  | CkDone.                (* line 259 *)

(** Everything the worker does not decide itself.  The interactive thread
    runs concurrently and may set the flag at any time: [flag_at] is the
    value the worker reads at each of its checks.  A collaborator that fails
    raises an exception of any class, [SystemExit] and [KeyboardInterrupt]
    included; [os.unlink], which also runs in the [finally] clause, raises
    an [OSError], given by its text. *)
Record Env := {
  flag_at : checkpoint → bool;
  (* tempfile.NamedTemporaryFile(delete=False, suffix='.wav'): the name *)
  new_temp_name : string + exn;
  (* VideoFileClip(video_path) *)
  open_clip : string → clip + exn;
  (* os.unlink(path) failing although the file exists: the text of the
     OSError *)
  unlink_error : string → option string;
  (* WhisperModel(model_path, ..., local_files_only=True) failing, given the
     model directories present on disk *)
  load_error : gset string → string → option exn;
  (* the download behind download_model(..., repo_id, local_path) failing *)
  download_error : string → string → option exn;
  (* model.transcribe(audio_path, beam_size=1, language=language) *)
  run_transcribe : string → string → option string → (seg_stream * TranscriptionInfo) + exn;
  (* open(output_path, "w", encoding="utf-8") failing *)
  open_error : string → option exn;
  (* the i-th f.write failing *)
  write_error : nat → option exn
}.

(** ** The worker's state and its monad *)

Record Worker := {
  fs : gmap string string;         (* files: path to content *)
  model_dirs : gset string;        (* model directories on disk *)
  emitted : list message;          (* result_queue.put calls, oldest first *)
  temp_audio_path : option string  (* the local variable of the worker *)
}.

Definition with_fs (f : gmap string string → gmap string string) (w : Worker) : Worker :=
  {| fs := f (fs w); model_dirs := model_dirs w; emitted := emitted w;
     temp_audio_path := temp_audio_path w |}.

Definition with_model_dirs (f : gset string → gset string) (w : Worker) : Worker :=
  {| fs := fs w; model_dirs := f (model_dirs w); emitted := emitted w;
     temp_audio_path := temp_audio_path w |}.

Definition with_emitted (f : list message → list message) (w : Worker) : Worker :=
  {| fs := fs w; model_dirs := model_dirs w; emitted := f (emitted w);
     temp_audio_path := temp_audio_path w |}.

Definition with_temp_audio_path (p : option string) (w : Worker) : Worker :=
  {| fs := fs w; model_dirs := model_dirs w; emitted := emitted w;
     temp_audio_path := p |}.

(** How a piece of Python code ends: with a value, with a [return] out of
    the enclosing function, or with an exception. *)
Inductive outcome (A : Type) :=
  | Val (a : A)
  | Return
  | Raise (e : exn).
Global Arguments Val {A} a.
Global Arguments Return {A}.
Global Arguments Raise {A} e.

Definition M (A : Type) : Type := Worker → outcome A * Worker.

Global Instance M_ret : MRet M := λ A a w, (Val a, w).

Global Instance M_bind : MBind M := λ A B f m w,
  match m w with
  | (Val a, w') => f a w'
  | (Return, w') => (Return, w')
  | (Raise e, w') => (Raise e, w')
  end.

Definition raise {A} (e : exn) : M A := λ w, (Raise e, w).
Definition return_ {A} : M A := λ w, (Return, w).
Definition get {A} (f : Worker → A) : M A := λ w, (Val (f w), w).
Definition modify (f : Worker → Worker) : M unit := λ w, (Val (), f w).
Definition lift {A} (r : A + exn) : M A :=
  match r with inl a => mret a | inr e => raise e end.
Definition fail_if (o : option exn) : M unit :=
  match o with Some e => raise e | None => mret () end.

(** [try: body / except ...: handler]: [handler e] is [None] when no clause
    matches [e]. *)
Definition try_except {A} (body : M A) (handler : exn → option (M A)) : M A := λ w,
  match body w with
  | (Raise e, w') =>
      match handler e with
      | Some h => h w'
      | None => (Raise e, w')
      end
  | r => r
  end.

(** The clause [except Exception as e: handler e]: it matches the exceptions
    whose class derives from [Exception]. *)
Definition except_Exception {A} (handler : exn → M A) (e : exn) : option (M A) :=
  if is_Exception (exn_cls e) then Some (handler e) else None.

(** [try: body / finally: fin]: [fin] runs however [body] ends, and what
    [body] ended with stands unless [fin] itself leaves abruptly. *)
Definition try_finally {A} (body : M A) (fin : M unit) : M A := λ w,
  let '(r, w') := body w in
  match fin w' with
  | (Val _, w'') => (r, w'')
  | (Return, w'') => (Return, w'')
  | (Raise e, w'') => (Raise e, w'')
  end.

(** A call of a function with no result: a [return] ends the call. *)
Definition call (body : M unit) : M unit := λ w,
  match body w with
  | (Return, w') => (Val (), w')
  | r => r
  end.

(** [self.result_queue.put(m)] *)
Definition put (m : message) : M unit := modify (with_emitted (λ q, q ++ [m])).

(** [d[k]] *)
Definition getitem (d : gmap string string) (k : string) : M string :=
  match d !! k with
  | Some v => mret v
  | None => raise (Exn KeyError ("'" +:+ k +:+ "'"))
  end.

(** [os.path.exists(p)] *)
Definition exists_ (p : string) : M bool := get (λ w, bool_decide (is_Some (fs w !! p))).

(** [AppState] of [utils.py], with the values of its four variables. *)
Record AppState := {
  audio_file : string;
  output_file : string;
  language : string;
  model_size : string
}.

(** ** System calls of the worker *)

Section Worker.

Context (E : Env).

(** [self.stop_flag.is_set()] read at checkpoint [ck]. *)
Definition is_set (ck : checkpoint) : M bool := mret (flag_at E ck).

(** [if self.stop_flag.is_set(): return] *)
Definition return_if_set (ck : checkpoint) : M unit :=
  set ← is_set ck; if set : bool then return_ else mret ().

(** [tempfile.NamedTemporaryFile(delete=False, suffix='.wav')] followed by
    [close()]: an empty file under a new name. *)
Definition NamedTemporaryFile : M string :=
  name ← lift (new_temp_name E);
  modify (with_fs (insert name ""));;
  mret name.

(** [os.unlink(p)]: it fails with an [OSError]. *)
Definition unlink (p : string) : M unit :=
  fail_if (Exn OSError <$> unlink_error E p);;
  present ← exists_ p;
  if present : bool then modify (with_fs (delete p))
  else raise (Exn OSError ("No such file or directory: '" +:+ p +:+ "'")).

(** [video.audio.write_audiofile(target, codec='pcm_s16le', logger=None)]
    and [video.close()]. *)
Definition write_audiofile (a : audio_track) (target : string) : M unit :=
  modify (with_fs (insert target (demuxed a)));;
  fail_if (demux_error a).

(** [WhisperModel(model_path, device="cpu", compute_type="int8",
    local_files_only=True)]; the loaded model is identified by the path it
    was loaded from. *)
Definition WhisperModel (model_path : string) : M string :=
  dirs ← get model_dirs;
  fail_if (load_error E dirs model_path);;
  mret model_path.

(** Modelled from the spec: [download_model], which [main.py] imports from
    [download_models] and which that module does not define (it defines
    [download_models], which fetches every model with [snapshot_download]
    into its local path).  It is the blocking fetch of one model into the
    expected local path; a failure of the fetch is raised. *)
Definition download_model (model_name repo_id local_path : string) : M unit :=
  fail_if (download_error E repo_id local_path);;
  modify (with_model_dirs (λ d, {[local_path]} ∪ d)).

(** [open(output_path, "w", encoding="utf-8")]: creates or truncates. *)
Definition open_w (output_path : string) : M unit :=
  fail_if (open_error E output_path);;
  modify (with_fs (insert output_path "")).

(** The [i]-th [f.write(line)] on the file opened at [output_path]. *)
Definition f_write (output_path : string) (i : nat) (line : string) : M unit :=
  fail_if (write_error E i);;
  modify (with_fs (alter (λ content, content +:+ line) output_path)).

(** ** [extract_audio_from_video] *)

Definition extract_audio_from_video (video_path : string) : M string :=
  put (Status "Extracting audio from video...");;
  put (Log ("Extracting audio from video: " +:+ Py.basename video_path));;
  temp_audio_path ← NamedTemporaryFile;
  try_except
    (video ← lift (open_clip E video_path);
     match audio video with
     | None => raise (Exn ValueError "Video file does not contain an audio track")
     | Some a =>
         write_audiofile a temp_audio_path;;
         put (Log "Audio extracted successfully");;
         mret temp_audio_path
     end)
    (except_Exception (λ e,
       present ← exists_ temp_audio_path;
       (if present : bool then unlink temp_audio_path else mret ());;
       raise (Exn OtherException ("Failed to extract audio from video: " +:+ exn_str e)))).

(** ** [transcription_worker] *)

(** Lines 211-226: the model is looked up and loaded. *)
Definition load_model (model_size : string) : M string :=
  try_except
    (model_path ← getitem AVAILABLE_MODELS model_size;
     WhisperModel model_path)
    (λ e,
       match exn_cls e with
       | KeyError => Some (
           put (Log ("Model '" +:+ model_size +:+ "' not found, using 'base'"));;
           model_path ← getitem AVAILABLE_MODELS "base";
           WhisperModel model_path)
       | HFValidationError => Some (
           put (Log ("Model '" +:+ model_size +:+ "' not found, downloading..."));;
           model_path ← getitem AVAILABLE_MODELS model_size;
           repo_id ← getitem HF_MODEL_MAPPING model_size;
           download_model model_size repo_id model_path;;
           put (Log ("Model '" +:+ model_size +:+ "' downloaded successfully"));;
           WhisperModel model_path)
       | _ => None
       end).

Definition newline : string := String "010" "".

(** Lines 247-257: the loop over the generator, from iteration [i] with
    [processed_segments = processed]; its value is [processed_segments]
    when the loop is left.  The generator produces a segment (or raises)
    before the flag is read; [time.sleep(0.001)] changes nothing. *)
Fixpoint write_segments (output_path : string) (segments : seg_stream)
    (i processed : nat) : M nat :=
  match segments with
  | SEnd => mret processed
  | SFail e => raise e
  | SSeg segment rest =>
      set ← is_set (CkSegment i);
      if set : bool then
        put (Log "Transcription stopped by user");;
        mret processed
      else
        let line := Py.strip (text segment) +:+ newline in
        f_write output_path i line;;
        write_segments output_path rest (S i) (S processed)
  end.

(** Lines 260-262. *)
Definition completion_messages (processed_segments : nat) (output_path : string)
    : list message :=
  [ Log ("Transcription completed! Processed segments: " +:+ pretty processed_segments);
    Log ("Result saved to: " +:+ output_path);
    Success "Transcription completed successfully!" ].

(** Lines 244-262. *)
Definition write_stage (output_path : string) (segments : seg_stream) : M unit :=
  open_w output_path;;
  processed_segments ← write_segments output_path segments 1 0;
  set ← is_set CkDone;
  if set : bool then mret ()
  else
    put (Log ("Transcription completed! Processed segments: " +:+ pretty processed_segments));;
    put (Log ("Result saved to: " +:+ output_path));;
    put (Success "Transcription completed successfully!").

(** Lines 197-203: the value is [audio_path]. *)
Definition audio_stage (input_path : string) : M string :=
  if is_video_file input_path then
    return_if_set CkVideo;;
    p ← extract_audio_from_video input_path;
    modify (with_temp_audio_path (Some p));;
    mret p
  else mret input_path.

(** Lines 205-242: the model is loaded and the transcription started; the
    value is the generator of segments. *)
Definition transcribe_stage (state : AppState) (audio_path : string) : M seg_stream :=
  let input_path := audio_file state in
  let lang := if bool_decide (language state = "auto") then None else Some (language state) in
  put (Status "Loading model...");;
  put (Log ("Loading model: " +:+ model_size state));;
  return_if_set CkLoad;;
  model ← load_model (model_size state);
  return_if_set CkModel;;
  put (Status "Transcribing...");;
  put (Log ("Starting transcription of file: " +:+ Py.basename input_path));;
  '(segments, info) ← lift (run_transcribe E model audio_path lang);
  return_if_set CkTranscribed;;
  put (Log ("Detected language: " +:+ info_language info +:+
            " (probability: " +:+ language_probability_2f info +:+ ")"));;
  put (Log ("Approximate duration: " +:+ duration_2f info +:+ " seconds"));;
  mret segments.

(** Lines 191-242: everything before the output file is opened. *)
Definition setup_stage (state : AppState) : M seg_stream :=
  audio_path ← audio_stage (audio_file state);
  transcribe_stage state audio_path.

(** The body of the outer [try]. *)
Definition worker_body (state : AppState) : M unit :=
  segments ← setup_stage state;
  write_stage (output_file state) segments.

(** The [except Exception as e] clause of the worker. *)
Definition worker_handler (e : exn) : M unit :=
  let error_msg := "An error occurred: " +:+ exn_str e in
  put (Error error_msg);;
  put (Log ("ERROR: " +:+ error_msg)).

(** The [finally] clause of the worker. *)
Definition worker_finally : M unit :=
  temp ← get temp_audio_path;
  match temp with
  | Some p =>
      present ← exists_ p;
      if bool_decide (p ≠ "") && present then
        try_except
          (unlink p;;
           put (Log "Temporary audio file cleaned up"))
          (except_Exception (λ e,
             put (Log ("Warning: Could not delete temporary file: " +:+ exn_str e))))
      else mret ()
  | None => mret ()
  end;;
  put Finished.

Definition transcription_worker (state : AppState) : M unit :=
  call (modify (with_temp_audio_path None);;
        try_finally
          (try_except (worker_body state) (except_Exception worker_handler))
          worker_finally).

End Worker.

(** ** The interactive side: [TranscriptionGUI] *)

(** A [messagebox] call. *)
Inductive dialog :=
  | showerror (title body : string)
  | showinfo (title body : string).

Record GUI := {
  stop_flag : bool;                  (* threading.Event *)
  is_transcribing : bool;
  result_queue : list message;       (* oldest first *)
  state : AppState;
  start_button : bool;               (* tk.NORMAL is true, tk.DISABLED false *)
  stop_button : bool;
  progress_bar : bool;               (* running *)
  status_label : string;
  log_text : string;
  dialogs : list dialog;             (* the messagebox calls so far *)
  threads_started : nat              (* worker threads started so far *)
}.

Definition update_status (status : string) (g : GUI) : GUI :=
  {| stop_flag := stop_flag g; is_transcribing := is_transcribing g;
     result_queue := result_queue g; state := state g;
     start_button := start_button g; stop_button := stop_button g;
     progress_bar := progress_bar g; status_label := status;
     log_text := log_text g; dialogs := dialogs g;
     threads_started := threads_started g |}.

Definition log_message (msg : string) (g : GUI) : GUI :=
  {| stop_flag := stop_flag g; is_transcribing := is_transcribing g;
     result_queue := result_queue g; state := state g;
     start_button := start_button g; stop_button := stop_button g;
     progress_bar := progress_bar g; status_label := status_label g;
     log_text := log_text g +:+ msg +:+ newline; dialogs := dialogs g;
     threads_started := threads_started g |}.

Definition show (d : dialog) (g : GUI) : GUI :=
  {| stop_flag := stop_flag g; is_transcribing := is_transcribing g;
     result_queue := result_queue g; state := state g;
     start_button := start_button g; stop_button := stop_button g;
     progress_bar := progress_bar g; status_label := status_label g;
     log_text := log_text g; dialogs := dialogs g ++ [d];
     threads_started := threads_started g |}.

Definition start_transcription (g : GUI) : GUI :=
  if is_transcribing g then g
  else if bool_decide (audio_file (state g) = "") then
    show (showerror "Error" "Select audio or video file") g
  else if bool_decide (output_file (state g) = "") then
    show (showerror "Error" "Specify file for saving") g
  else
    {| stop_flag := false;                           (* self.stop_flag.clear() *)
       is_transcribing := true;
       result_queue := result_queue g; state := state g;
       start_button := false; stop_button := true;
       progress_bar := true; status_label := "Initializing...";
       log_text := ""; dialogs := dialogs g;
       threads_started := S (threads_started g) |}.  (* Thread(...).start() *)

Definition stop_transcription (g : GUI) : GUI :=
  update_status "Stopping..."
    {| stop_flag := true;                            (* self.stop_flag.set() *)
       is_transcribing := is_transcribing g;
       result_queue := result_queue g; state := state g;
       start_button := start_button g; stop_button := stop_button g;
       progress_bar := progress_bar g; status_label := status_label g;
       log_text := log_text g; dialogs := dialogs g;
       threads_started := threads_started g |}.

Definition transcription_finished (g : GUI) : GUI :=
  update_status "Ready to work"
    {| stop_flag := stop_flag g; is_transcribing := false;
       result_queue := result_queue g; state := state g;
       start_button := true; stop_button := false;
       progress_bar := false; status_label := status_label g;
       log_text := log_text g; dialogs := dialogs g;
       threads_started := threads_started g |}.

(** The body of the loop of [check_queue] for one dequeued message. *)
Definition handle_message (g : GUI) (m : message) : GUI :=
  let '(message_type, data) := m in
  match data with
  | Some d =>
      if bool_decide (message_type = "status") then update_status d g
      else if bool_decide (message_type = "log") then log_message d g
      else if bool_decide (message_type = "error") then show (showerror "Error" d) g
      else if bool_decide (message_type = "success") then show (showinfo "Success" d) g
      else if bool_decide (message_type = "finished") then transcription_finished g
      else g
  | None =>
      if bool_decide (message_type = "finished") then transcription_finished g
      else g
  end.

Definition set_queue (q : list message) (g : GUI) : GUI :=
  {| stop_flag := stop_flag g; is_transcribing := is_transcribing g;
     result_queue := q; state := state g;
     start_button := start_button g; stop_button := stop_button g;
     progress_bar := progress_bar g; status_label := status_label g;
     log_text := log_text g; dialogs := dialogs g;
     threads_started := threads_started g |}.

(** One run of [check_queue]: [get_nowait] until [queue.Empty], each message
    handled as it is taken. *)
Definition check_queue (g : GUI) : GUI :=
  foldl handle_message (set_queue [] g) (result_queue g).

(** What happens around the GUI, one step at a time: the user presses a
    button, the timer fires [check_queue], or the worker thread puts a
    message. *)
Inductive action :=
  | Start
  | Stop
  | Tick
  | Put (m : message).

Definition step (g : GUI) (a : action) : GUI :=
  match a with
  | Start => start_transcription g
  | Stop => stop_transcription g
  | Tick => check_queue g
  | Put m => set_queue (result_queue g ++ [m]) g
  end.

Definition run (acts : list action) (g : GUI) : GUI := foldl step g acts.

(** The messages [check_queue] takes from the queue along a run, in the
    order [get_nowait] returns them. *)
Fixpoint observed (acts : list action) (g : GUI) : list message :=
  match acts with
  | [] => []
  | a :: acts' =>
      match a with Tick => result_queue g | _ => [] end ++ observed acts' (step g a)
  end.


(** Whether [Start] launches a job from [g]. *)
Definition accepts_start (g : GUI) : bool :=
  negb (is_transcribing g)
  && negb (bool_decide (audio_file (state g) = ""))
  && negb (bool_decide (output_file (state g) = "")).

(** Whether some step of the run launches a job. *)
Fixpoint launches (acts : list action) (g : GUI) : bool :=
  match acts with
  | [] => false
  | a :: acts' =>
      match a with Start => accepts_start g | _ => false end || launches acts' (step g a)
  end.

(** ** The rest of the window: [__init__], [browse_audio], [browse_output] *)

(** The window as [__init__] and [setup_ui] leave it. *)
Definition initial_gui : GUI :=
  {| stop_flag := false; is_transcribing := false; result_queue := [];
     state := {| audio_file := ""; output_file := "";
                 language := "auto"; model_size := "base" |};
     start_button := true; stop_button := false; progress_bar := false;
     status_label := "Ready to work"; log_text := ""; dialogs := [];
     threads_started := 0 |}.

Definition set_state (s : AppState) (g : GUI) : GUI :=
  {| stop_flag := stop_flag g; is_transcribing := is_transcribing g;
     result_queue := result_queue g; state := s;
     start_button := start_button g; stop_button := stop_button g;
     progress_bar := progress_bar g; status_label := status_label g;
     log_text := log_text g; dialogs := dialogs g;
     threads_started := threads_started g |}.

Definition set_audio_file (v : string) (s : AppState) : AppState :=
  {| audio_file := v; output_file := output_file s;
     language := language s; model_size := model_size s |}.

Definition set_output_file (v : string) (s : AppState) : AppState :=
  {| audio_file := audio_file s; output_file := v;
     language := language s; model_size := model_size s |}.

Definition set_language (v : string) (s : AppState) : AppState :=
  {| audio_file := audio_file s; output_file := output_file s;
     language := v; model_size := model_size s |}.

Definition set_model_size (v : string) (s : AppState) : AppState :=
  {| audio_file := audio_file s; output_file := output_file s;
     language := language s; model_size := v |}.

(** [browse_audio], [filename] being what [askopenfilename] returned (the
    empty string when the dialog is cancelled). *)
Definition browse_audio (filename : string) (g : GUI) : GUI :=
  if bool_decide (filename ≠ "") then
    let g1 := set_state (set_audio_file filename (state g)) g in
    if bool_decide (output_file (state g1) = "") then
      let base_name := (Py.splitext filename).1 in
      set_state (set_output_file (base_name +:+ "_transcript.txt") (state g1)) g1
    else g1
  else g.

(** [browse_output], [filename] being what [asksaveasfilename] returned. *)
Definition browse_output (filename : string) (g : GUI) : GUI :=
  if bool_decide (filename ≠ "") then
    set_state (set_output_file filename (state g)) g
  else g.

(** Everything that happens to the window: the steps of [action], the two
    file dialogs and the two read-only comboboxes. *)
Inductive ui_event :=
  | Act (a : action)
  | BrowseAudio (filename : string)
  | BrowseOutput (filename : string)
  | SelectLanguage (value : string)
  | SelectModel (value : string).

Definition ui_step (g : GUI) (ev : ui_event) : GUI :=
  match ev with
  | Act a => step g a
  | BrowseAudio filename => browse_audio filename g
  | BrowseOutput filename => browse_output filename g
  | SelectLanguage v => set_state (set_language v (state g)) g
  | SelectModel v => set_state (set_model_size v (state g)) g
  end.

Definition ui_run (evs : list ui_event) (g : GUI) : GUI := foldl ui_step g evs.

(** The messages [check_queue] takes from the queue along a run of events. *)
Fixpoint ui_observed (evs : list ui_event) (g : GUI) : list message :=
  match evs with
  | [] => []
  | ev :: evs' =>
      match ev with Act Tick => result_queue g | _ => [] end
      ++ ui_observed evs' (ui_step g ev)
  end.

(** ** [utils.Language] and the two comboboxes *)

(** The values of the enumeration [Language], which are the values of the
    language combobox. *)
Definition Language_values : list string :=
  ["auto"; "en"; "ru"; "es"; "fr"; "de"; "it"; "pt"].

(** A selection that the read-only comboboxes of [create_settings_frame]
    allow: a language of the enumeration, a model of the table. *)
Definition offered (ev : ui_event) : Prop :=
  match ev with
  | SelectLanguage v => v ∈ Language_values
  | SelectModel v => is_Some (AVAILABLE_MODELS !! v)
  | _ => True
  end.

(** The messages put along a run of events. *)
Definition ui_puts (evs : list ui_event) : list message :=
  omap (λ ev, match ev with Act (Put m) => Some m | _ => None end) evs.

(** One when no job is active: the room for one more worker. *)
Definition slack (g : GUI) : nat := if is_transcribing g then 0 else 1.

(** The number of [Finished] messages among those taken from the queue. *)
Definition finished_count (ms : list message) : nat :=
  length (filter (λ m, is_finished m = true) ms).

(** The controls that follow the job: Start enabled, Stop enabled, progress
    bar running. *)
Definition controls_follow_job (g : GUI) : Prop :=
  start_button g = negb (is_transcribing g)
  ∧ stop_button g = is_transcribing g
  ∧ progress_bar g = is_transcribing g.

(** What a list of messages adds to the log view and to the dialogs. *)
Fixpoint log_lines_of (ms : list message) : string :=
  match ms with
  | [] => ""
  | (kind, Some d) :: ms' =>
      if bool_decide (kind = "log") then (d +:+ newline) +:+ log_lines_of ms'
      else log_lines_of ms'
  | _ :: ms' => log_lines_of ms'
  end.

Fixpoint dialogs_of (ms : list message) : list dialog :=
  match ms with
  | [] => []
  | (kind, Some d) :: ms' =>
      if bool_decide (kind = "error") then showerror "Error" d :: dialogs_of ms'
      else if bool_decide (kind = "success") then showinfo "Success" d :: dialogs_of ms'
      else dialogs_of ms'
  | _ :: ms' => dialogs_of ms'
  end.

Definition is_success (m : message) : bool := bool_decide (m.1 = "success").


(** A message that opens no dialog: a status or a log line. *)
Definition quiet (m : message) : Prop := ∃ d, m = Status d ∨ m = Log d.

(** The messages of lines 205-242 when nothing stops or fails. *)
Definition transcription_messages (st : AppState) (info : TranscriptionInfo)
    : list message :=
  [ Status "Loading model...";
    Log ("Loading model: " +:+ model_size st);
    Status "Transcribing...";
    Log ("Starting transcription of file: " +:+ Py.basename (audio_file st));
    Log ("Detected language: " +:+ info_language info +:+
         " (probability: " +:+ language_probability_2f info +:+ ")");
    Log ("Approximate duration: " +:+ duration_2f info +:+ " seconds") ].

(** The language given to [model.transcribe]. *)
Definition language_hint (st : AppState) : option string :=
  if bool_decide (language st = "auto") then None else Some (language st).

(** The stream fails after the segments of [l]: the generator raises, or it
    yields one more segment whose write raises. *)
Definition fails_after (E : Env) (n : nat) (e : exn) (tail : seg_stream) : Prop :=
  tail = SFail e
  ∨ ∃ s rest, tail = SSeg s rest
      ∧ flag_at E (CkSegment (S n)) = false ∧ write_error E (S n) = Some e.

(** ** [download_models.py] *)

(** [AVAILABLE_MODELS.items()], in the order of the dictionary literal. *)
Definition AVAILABLE_MODELS_items : list (string * string) :=
  [ ("tiny", "./models/models--Systran--faster-whisper-tiny");
    ("tiny.en", "./models/models--Systran--faster-whisper-tiny.en");
    ("base", "./models/models--Systran--faster-whisper-base");
    ("base.en", "./models/models--Systran--faster-whisper-base.en");
    ("small", "./models/models--Systran--faster-whisper-small");
    ("small.en", "./models/models--Systran--faster-whisper-small.en");
    ("medium", "./models/models--Systran--faster-whisper-medium");
    ("medium.en", "./models/models--Systran--faster-whisper-medium.en");
    ("large-v1", "./models/models--Systran--faster-whisper-large-v1");
    ("large-v2", "./models/models--Systran--faster-whisper-large-v2");
    ("large-v3", "./models/models--Systran--faster-whisper-large-v3");
    ("large", "./models/models--Systran--faster-whisper-large") ].

Inductive log_level := DEBUG | INFO | WARNING | ERROR.

(** The numeric value of a level in [logging]. *)
Definition level_no (l : log_level) : nat :=
  match l with DEBUG => 10 | INFO => 20 | WARNING => 30 | ERROR => 40 end.

(** What the script works on: the directories on disk and the calls of the
    logger, oldest first. *)
Record Disk := {
  disk_dirs : gset string;
  logged : list (log_level * string)
}.

(** How a call of [snapshot_download] ends: the repository is in
    [local_dir], or the call raises, having created [local_dir] (with part
    of the files) before it does or not. *)
Inductive snapshot_result :=
  | Downloaded
  | Failed (e : exn) (dir_left : bool).

(** The collaborators of the script: [os.makedirs] failing (the text of the
    [OSError]) and [snapshot_download], given [repo_id] and [local_dir]. *)
Record DownloadEnv := {
  makedirs_error : option string;
  snapshot_download : string → string → snapshot_result
}.

Definition log_call (l : log_level) (msg : string) (d : Disk) : Disk :=
  {| disk_dirs := disk_dirs d; logged := logged d ++ [(l, msg)] |}.

Definition add_dir (p : string) (d : Disk) : Disk :=
  {| disk_dirs := {[p]} ∪ disk_dirs d; logged := logged d |}.

(** The body of the [for] loop for one item; [None] is the normal end of the
    iteration, [Some e] an exception that leaves the loop. *)
Definition download_item (D : DownloadEnv) (item : string * string) (d : Disk)
    : option exn * Disk :=
  let '(model_name, local_path) := item in
  let d1 := log_call INFO ("Downloading model: " +:+ model_name) d in
  match HF_MODEL_MAPPING !! model_name with
  | None => (Some (Exn KeyError ("'" +:+ model_name +:+ "'")), d1)
  | Some repo_id =>
      match snapshot_download D repo_id local_path with
      | Downloaded =>
          (None, log_call INFO ("Model " +:+ model_name +:+ " downloaded to " +:+ local_path)
                   (add_dir local_path d1))
      | Failed e dir_left =>
          let d2 := if dir_left then add_dir local_path d1 else d1 in
          (* except Exception as e *)
          if is_Exception (exn_cls e) then
            (None, log_call ERROR ("Error downloading " +:+ model_name +:+ ": " +:+ exn_str e) d2)
          else (Some e, d2)
      end
  end.

Fixpoint download_loop (D : DownloadEnv) (items : list (string * string)) (d : Disk)
    : option exn * Disk :=
  match items with
  | [] => (None, d)
  | item :: items' =>
      match download_item D item d with
      | (None, d') => download_loop D items' d'
      | r => r
      end
  end.

(** [download_models()] *)
Definition download_models (D : DownloadEnv) (d : Disk) : option exn * Disk :=
  match makedirs_error D with
  | Some msg => (Some (Exn OSError msg), d)
  | None => download_loop D AVAILABLE_MODELS_items (add_dir "./models" d)
  end.

(** How the download of an item of the table ends. *)
Definition item_result (D : DownloadEnv) (item : string * string) : option snapshot_result :=
  repo_id ← HF_MODEL_MAPPING !! item.1; Some (snapshot_download D repo_id item.2).

(** The download of the item raises an exception that the [except Exception]
    clause of the loop lets pass. *)
Definition interrupted_by (D : DownloadEnv) (item : string * string) (e : exn) : Prop :=
  ∃ dir_left, item_result D item = Some (Failed e dir_left)
              ∧ is_Exception (exn_cls e) = false.

(** The download of the item succeeds, or fails with an exception that the
    clause catches. *)
Definition settled (D : DownloadEnv) (item : string * string) : Prop :=
  item_result D item = Some Downloaded
  ∨ ∃ e dir_left, item_result D item = Some (Failed e dir_left)
                  ∧ is_Exception (exn_cls e) = true.

(** The exception with which the iteration for an item leaves the loop. *)
Definition item_raises (D : DownloadEnv) (item : string * string) : option exn :=
  match item_result D item with
  | Some Downloaded => None
  | Some (Failed e _) => if is_Exception (exn_cls e) then None else Some e
  | None => Some (Exn KeyError ("'" +:+ item.1 +:+ "'"))
  end.

(** The items the loop goes through: those up to the first whose iteration
    raises, that one included. *)
Fixpoint visited (D : DownloadEnv) (items : list (string * string))
    : list (string * string) :=
  match items with
  | [] => []
  | item :: items' =>
      item :: match item_raises D item with
              | Some _ => []
              | None => visited D items'
              end
  end.

(** The directories the download of an item leaves on disk. *)
Definition item_dirs (D : DownloadEnv) (item : string * string) : list string :=
  match item_result D item with
  | Some Downloaded => [item.2]
  | Some (Failed _ dir_left) => if dir_left : bool then [item.2] else []
  | None => []
  end.

(** The calls of the logger for one item of the loop. *)
Definition item_log (D : DownloadEnv) (item : string * string)
    : list (log_level * string) :=
  (INFO, "Downloading model: " +:+ item.1)
  :: match item_result D item with
     | Some Downloaded => [(INFO, "Model " +:+ item.1 +:+ " downloaded to " +:+ item.2)]
     | Some (Failed e _) =>
         if is_Exception (exn_cls e)
         then [(ERROR, "Error downloading " +:+ item.1 +:+ ": " +:+ exn_str e)]
         else []
     | None => []
     end.

(** ** [utils.get_logger] *)

(** A handler: its level (the stream and the formatter do not vary). *)
Record Handler := { handler_level : log_level }.

(** A logger of the [logging] module: its level ([None] for NOTSET) and its
    own handlers. *)
Record Logger := { logger_level : option log_level; handlers : list Handler }.

(** [get_logger(name)] on the registry of loggers of the process;
    [ancestor_handlers] tells whether a logger above [name] has a handler,
    which is what [hasHandlers] also looks at. *)
Definition get_logger (name : string) (ancestor_handlers : bool)
    (registry : gmap string Logger) : gmap string Logger :=
  let logger := default {| logger_level := None; handlers := [] |} (registry !! name) in
  let logger := {| logger_level := Some DEBUG; handlers := handlers logger |} in
  let has_handlers := bool_decide (handlers logger ≠ []) || ancestor_handlers in
  let logger :=
    if has_handlers then {| logger_level := logger_level logger; handlers := [] |}
    else logger in
  let console_handler := {| handler_level := INFO |} in
  <[name := {| logger_level := logger_level logger;
               handlers := handlers logger ++ [console_handler] |}]> registry.

(** The number of times the handlers of the logger [name] write a record of
    level [l]: the logger lets it pass when its level allows, then every
    handler decides by its own level. *)
Definition console_writes (name : string) (l : log_level)
    (registry : gmap string Logger) : nat :=
  match registry !! name with
  | Some logger =>
      if decide (level_no (default WARNING (logger_level logger)) ≤ level_no l) then
        length (filter (λ h, level_no (handler_level h) ≤ level_no l) (handlers logger))
      else 0
  | None => 0
  end.

(** ** Vocabulary of the statements *)

(** The messages a computation adds to the queue when run from [w]. *)
Definition messages_of {A} (m : M A) (w : Worker) : list message :=
  drop (length (emitted w)) (emitted (m w).2).

(** The lines the loop writes for a list of segments. *)
Definition lines_of (l : list Segment) : string :=
  foldr (λ s acc, (Py.strip (text s) +:+ newline) +:+ acc) "" l.

(** The number of line feeds of a text. *)
Fixpoint count_lines (s : string) : nat :=
  match s with
  | EmptyString => 0
  | String c s' => (if Ascii.eqb c "010" then 1 else 0) + count_lines s'
  end.

(** Whether a text has a line feed. *)
Fixpoint has_newline (s : string) : bool :=
  match s with
  | EmptyString => false
  | String c s' => Ascii.eqb c "010" || has_newline s'
  end.

(** The extensions of the specification, without the dot. *)
Definition spec_video_extensions : list string :=
  ["mp4"; "avi"; "mkv"; "mov"; "wmv"; "flv"; "webm"; "m4v"].

(** A computation keeps the relation [R] between the state it starts from
    and the state it ends in. *)
Definition preserves (R : Worker → Worker → Prop) {A} (m : M A) : Prop :=
  ∀ w, R w (m w).2.

(** The queue only grows, by messages that satisfy [P]. *)
Definition grows_by (P : message → Prop) (w w' : Worker) : Prop :=
  ∃ ms, emitted w' = emitted w ++ ms ∧ Forall P ms.

(** The messages of the [finally] clause before [Finished], from the state
    in which the clause starts. *)
Definition cleanup_log (E : Env) (w : Worker) : list message :=
  match temp_audio_path w with
  | Some p =>
      if bool_decide (p ≠ "") && bool_decide (is_Some (fs w !! p)) then
        match unlink_error E p with
        | Some msg => [Log ("Warning: Could not delete temporary file: " +:+ msg)]
        | None => [Log "Temporary audio file cleaned up"]
        end
      else []
  | None => []
  end.

(** The messages of the [except Exception] clause of the worker for an
    exception that ended the body of the [try]: none when the clause lets
    the exception pass. *)
Definition error_report (e : exn) : list message :=
  if is_Exception (exn_cls e) then
    [Error ("An error occurred: " +:+ exn_str e);
     Log ("ERROR: An error occurred: " +:+ exn_str e)]
  else [].

(** How the worker ends, from the way the body of the outer [try] ended: an
    exception that the [except Exception] clause lets pass leaves the worker
    once the [finally] clause has run. *)
Definition worker_outcome (r : outcome unit) : outcome unit :=
  match r with
  | Raise e => if is_Exception (exn_cls e) then Val () else Raise e
  | _ => Val ()
  end.

(** The state the [finally] clause leaves before it puts [Finished]. *)
Definition after_cleanup (E : Env) (w : Worker) : Worker :=
  match temp_audio_path w with
  | Some p =>
      if bool_decide (p ≠ "") && bool_decide (is_Some (fs w !! p)) then
        match unlink_error E p with
        | Some msg =>
            with_emitted
              (λ q, q ++ [Log ("Warning: Could not delete temporary file: " +:+ msg)]) w
        | None =>
            with_emitted (λ q, q ++ [Log "Temporary audio file cleaned up"])
              (with_fs (delete p) w)
        end
      else w
  | None => w
  end.

(** The state after the outer [try] and its [except] clause, from the way
    the body ended. *)
Definition after_body (r : outcome unit * Worker) : Worker :=
  match r.1 with
  | Raise e => with_emitted (λ q, q ++ error_report e) r.2
  | _ => r.2
  end.

Definition not_finished (m : message) : Prop := is_finished m = false.
Definition not_error (m : message) : Prop := is_error m = false.



(** ** Sample data for concrete runs *)

Definition sample_segments : list Segment :=
  [ {| text := " Good morning everyone." |};
    {| text := " Thanks for joining the call." |};
    {| text := " Let us start with the agenda." |};
    {| text := " First, the quarterly numbers." |};
    {| text := " Revenue is up four percent." |};
    {| text := " Costs stayed flat." |};
    {| text := " Second, the hiring plan." |};
    {| text := " We open three positions." |};
    {| text := " Any questions so far?" |};
    {| text := " Then we are done." |} ].

Definition sample_info : TranscriptionInfo :=
  {| info_language := "en"; language_probability_2f := "0.98"; duration_2f := "31.20" |}.

(** The flag as the worker reads it when the user presses Stop while segment
    [k] is written. *)
Definition stop_after (k : nat) (ck : checkpoint) : bool :=
  match ck with
  | CkSegment i => bool_decide (k < i)
  | CkDone => true
  | _ => false
  end.

Definition never_stopped (ck : checkpoint) : bool := false.

(** An environment in which every collaborator works: a model directory
    loads when it is on disk and is otherwise refused as a repository
    identifier, videos have an audio track, files can be written. *)
Definition sample_env (flag : checkpoint → bool) (segments : seg_stream) : Env :=
  {| flag_at := flag;
     new_temp_name := inl "/tmp/tmpk3v9x2.wav";
     open_clip := λ _, inl {| audio := Some {| demuxed := "RIFF-WAVE-data"; demux_error := None |} |};
     unlink_error := λ _, None;
     load_error := λ dirs p,
       if bool_decide (p ∈ dirs) then None
       else Some (Exn HFValidationError ("Repo id must be in the form 'repo_name' or 'namespace/repo_name': '" +:+ p +:+ "'"));
     download_error := λ _ _, None;
     run_transcribe := λ _ _ _, inl (segments, sample_info);
     open_error := λ _, None;
     write_error := λ _, None |}.


Definition sample_state (input model : string) : AppState :=
  {| audio_file := input; output_file := "/data/talk.txt";
     language := "auto"; model_size := model |}.

(** A worker about to start: an old transcript at the output path, the
    listed model directories on disk, nothing in the queue. *)
Definition sample_worker (dirs : gset string) : Worker :=
  {| fs := {[ "/data/talk.txt" := "an older transcript" ]};
     model_dirs := dirs;
     emitted := [];
     temp_audio_path := None |}.

Definition tiny_dir : string := "./models/models--Systran--faster-whisper-tiny".
Definition base_dir : string := "./models/models--Systran--faster-whisper-base".

(** A window in which nothing runs, with the flag left set by an earlier
    Stop. *)
Definition idle_gui (input output : string) : GUI :=
  {| stop_flag := true; is_transcribing := false; result_queue := [];
     state := {| audio_file := input; output_file := output;
                 language := "auto"; model_size := "base" |};
     start_button := true; stop_button := false; progress_bar := false;
     status_label := "Ready to work"; log_text := ""; dialogs := [];
     threads_started := 0 |}.

(** The same environment when the temporary file cannot be deleted. *)
Definition locked_temp_env : Env :=
  {| flag_at := never_stopped;
     new_temp_name := inl "/tmp/tmpk3v9x2.wav";
     open_clip := λ _, inl {| audio := Some {| demuxed := "RIFF-WAVE-data"; demux_error := None |} |};
     unlink_error := λ _, Some "[WinError 32] The process cannot access the file";
     load_error := λ _ _, None;
     download_error := λ _ _, None;
     run_transcribe := λ _ _ _, inl (stream_of sample_segments, sample_info);
     open_error := λ _, None;
     write_error := λ _, None |}.

(** A schedule for a list of messages: the user presses Stop, then each
    message is put and a tick of the timer follows every second put. *)
Fixpoint sample_schedule (ms : list message) : list action :=
  match ms with
  | [] => []
  | [m] => [Put m]
  | m1 :: m2 :: ms' => Put m1 :: Put m2 :: Tick :: sample_schedule ms'
  end.

(** An environment in which the model files cannot be read. *)
Definition broken_model_env : Env :=
  {| flag_at := never_stopped;
     new_temp_name := inl "/tmp/tmpk3v9x2.wav";
     open_clip := λ _, inl {| audio := None |};
     unlink_error := λ _, None;
     load_error := λ _ _, Some (Exn OSError "Unable to open file 'model.bin'");
     download_error := λ _ _, None;
     run_transcribe := λ _ _ _, inl (SEnd, sample_info);
     open_error := λ _, None;
     write_error := λ _, None |}.

(** The flag as the worker reads it when Stop was pressed before its first
    check. *)
Definition stopped_at_once (ck : checkpoint) : bool := true.

(** A generator that yields two segments and then raises. *)
Definition crashing_stream : seg_stream :=
  stream_app (take 2 sample_segments) (SFail (Exn OtherException "decoder crashed")).

(** An environment in which [model.transcribe] is left by [SystemExit]. *)
Definition exiting_env : Env :=
  {| flag_at := never_stopped;
     new_temp_name := inl "/tmp/tmpk3v9x2.wav";
     open_clip := λ _, inl {| audio := Some {| demuxed := "RIFF-WAVE-data"; demux_error := None |} |};
     unlink_error := λ _, None;
     load_error := λ _ _, None;
     download_error := λ _ _, None;
     run_transcribe := λ _ _ _, inr (Exn SystemExit "1");
     open_error := λ _, None;
     write_error := λ _, None |}.

(** Ten segments, the second of which has a line feed inside its text. *)
Definition two_line_segments : list Segment :=
  [ {| text := " Good morning everyone." |};
    {| text := " Thanks for joining" +:+ newline +:+ "the call." |};
    {| text := " Let us start with the agenda." |};
    {| text := " First, the quarterly numbers." |};
    {| text := " Revenue is up four percent." |};
    {| text := " Costs stayed flat." |};
    {| text := " Second, the hiring plan." |};
    {| text := " We open three positions." |};
    {| text := " Any questions so far?" |};
    {| text := " Then we are done." |} ].


(** The events of a job seen from the window: Stop is pressed, the worker
    puts its messages with a tick after every second one, and the user
    cancels a file dialog in between. *)
Definition sample_events (ms : list message) : list ui_event :=
  Act Stop :: BrowseOutput "" :: map Act (sample_schedule ms).

(** The window after a media file was chosen and Start pressed. *)
Definition running_gui : GUI :=
  start_transcription (browse_audio "/data/talk.mp3" initial_gui).

(** Downloads that work except for one repository. *)
Definition sample_download_env : DownloadEnv :=
  {| makedirs_error := None;
     snapshot_download := λ repo_id _,
       if bool_decide (repo_id = "Systran/faster-whisper-large")
       then Failed (Exn OSError "Connection reset by peer") true
       else Downloaded |}.

(** Downloads in which the user presses Ctrl-C while the third model is
    fetched, the second having failed. *)
Definition interrupted_download_env : DownloadEnv :=
  {| makedirs_error := None;
     snapshot_download := λ repo_id _,
       if bool_decide (repo_id = "Systran/faster-whisper-tiny.en")
       then Failed (Exn OSError "Connection reset by peer") false
       else if bool_decide (repo_id = "Systran/faster-whisper-base")
       then Failed (Exn KeyboardInterrupt "") true
       else Downloaded |}.

Definition empty_disk : Disk := {| disk_dirs := ∅; logged := [] |}.

(** * Properties *)

(** ** Sanity checks of the string primitives and the tables *)

Example is_video_upper : is_video_file "/home/u/Clip.MP4" = true.
Proof. vm_compute. reflexivity. Qed.

Example is_video_mp3 : is_video_file "talk.v2.mp3" = false.
Proof. vm_compute. reflexivity. Qed.

Example is_video_hidden : is_video_file "dir.d/.mp4" = false.
Proof. vm_compute. reflexivity. Qed.

Example lookup_base :
  AVAILABLE_MODELS !! "base" = Some "./models/models--Systran--faster-whisper-base".
Proof. vm_compute. reflexivity. Qed.

Example strip_example : Py.strip (" hello  world " +:+ newline) = "hello  world".
Proof. vm_compute. reflexivity. Qed.

Example basename_example : Py.basename "/data/in/interview.mp4" = "interview.mp4".
Proof. vm_compute. reflexivity. Qed.

(** The two tables have the same identifiers. *)
Lemma tables_same_keys : dom AVAILABLE_MODELS = dom HF_MODEL_MAPPING.
Proof. vm_compute. reflexivity. Qed.

(** ** Strings: append, slices and [rfind] *)

Lemma str_app_cons c s t : String c s +:+ t = String c (s +:+ t).
Proof. reflexivity. Qed.

Lemma str_app_empty t : "" +:+ t = t.
Proof. reflexivity. Qed.

Lemma rfind_from_app c s1 s2 i last :
  Py.rfind_from c (s1 +:+ s2) i last
  = Py.rfind_from c s2 (i + Z.of_nat (String.length s1)) (Py.rfind_from c s1 i last).
Proof.
  revert i last. induction s1 as [|a s1 IH]; intros i last.
  - rewrite str_app_empty. simpl. f_equal. lia.
  - rewrite str_app_cons. simpl Py.rfind_from. rewrite IH. f_equal.
    simpl String.length. lia.
Qed.

Lemma rfind_from_absent c s i last :
  Py.contains c s = false → Py.rfind_from c s i last = last.
Proof.
  revert i last. induction s as [|a s IH]; intros i last H; simpl in *; [done|].
  apply orb_false_iff in H as [Ha Hs]. rewrite Ha. by apply IH.
Qed.

Lemma rfind_from_bound c s i last :
  (last < i)%Z →
  (last ≤ Py.rfind_from c s i last < i + Z.of_nat (String.length s))%Z.
Proof.
  revert i last. induction s as [|a s IH]; intros i last H; simpl Py.rfind_from.
  - simpl. lia.
  - simpl String.length. destruct (Ascii.eqb a c).
    + specialize (IH (i + 1)%Z i). lia.
    + specialize (IH (i + 1)%Z last). lia.
Qed.

Lemma str_length_app s t : String.length (s +:+ t) = String.length s + String.length t.
Proof. induction s as [|a s IH]; [done|]. rewrite str_app_cons. simpl. by rewrite IH. Qed.

Lemma str_take_app_length s t : Py.take (String.length s) (s +:+ t) = s.
Proof.
  induction s as [|a s IH]; [by destruct t|].
  rewrite str_app_cons. simpl. by rewrite IH.
Qed.

Lemma str_drop_app_length s t : Py.drop (String.length s) (s +:+ t) = t.
Proof.
  induction s as [|a s IH]; [by destruct t|].
  rewrite str_app_cons. simpl. apply IH.
Qed.

Lemma str_drop_app_le n s t :
  n ≤ String.length s → Py.drop n (s +:+ t) = Py.drop n s +:+ t.
Proof.
  revert n. induction s as [|a s IH]; intros n H; simpl in H.
  - assert (n = 0) as -> by lia. by destruct t.
  - destruct n as [|n]; [done|]. rewrite str_app_cons. simpl. apply IH. lia.
Qed.

Lemma str_length_drop n s : String.length (Py.drop n s) = String.length s - n.
Proof.
  revert n. induction s as [|a s IH]; intros [|n]; simpl; try done.
Qed.

Lemma has_other_app c s t : Py.has_other c t = true → Py.has_other c (s +:+ t) = true.
Proof.
  intros H. induction s as [|a s IH]; [done|]. rewrite str_app_cons. simpl.
  rewrite IH. apply orb_true_r.
Qed.

Lemma contains_app c s t :
  Py.contains c (s +:+ t) = Py.contains c s || Py.contains c t.
Proof.
  induction s as [|a s IH]; [done|]. rewrite str_app_cons. simpl.
  rewrite IH. apply orb_assoc.
Qed.

Lemma str_app_assoc s t u : (s +:+ t) +:+ u = s +:+ (t +:+ u).
Proof. induction s as [|a s IH]; [done|]. rewrite !str_app_cons. by rewrite IH. Qed.

Lemma splitext_stem_ext d stem e :
  Py.contains "/" stem = false →
  Py.has_other "." stem = true →
  Py.contains "." e = false →
  Py.contains "/" e = false →
  Py.splitext (d +:+ stem +:+ "." +:+ e) = (d +:+ stem, "." +:+ e).
Proof.
  intros Hstem Hother Hdot Hsep.
  unfold Py.splitext, Py._splitext.
  set (p := d +:+ stem +:+ "." +:+ e).
  assert (Hsepi : Py.rfind "/" p = Py.rfind "/" d).
  { unfold p, Py.rfind. rewrite rfind_from_app.
    apply rfind_from_absent.
    rewrite !contains_app, Hstem, Hsep. reflexivity. }
  assert (Hdoti : Py.rfind "." p = Z.of_nat (String.length (d +:+ stem))).
  { unfold p, Py.rfind. rewrite <- str_app_assoc. rewrite rfind_from_app.
    rewrite str_app_cons, str_app_empty. simpl Py.rfind_from.
    rewrite rfind_from_absent by done. lia. }
  assert (Hb : (-1 ≤ Py.rfind "/" d < Z.of_nat (String.length d))%Z).
  { unfold Py.rfind. pose proof (rfind_from_bound "/" d 0 (-1)). lia. }
  rewrite Hsepi, Hdoti, str_length_app.
  destruct (Z.ltb_spec (Py.rfind "/" d) (Z.of_nat (String.length d + String.length stem))); [|lia].
  rewrite Nat2Z.id, <- str_length_app.
  assert (Hslice : Py.has_other "."
            (Py.slice (Py.rfind "/" d + 1) (Z.of_nat (String.length (d +:+ stem))) p) = true).
  { unfold Py.slice, p.
    rewrite str_drop_app_le by lia.
    set (d' := Py.drop _ d).
    assert (Z.to_nat (Z.of_nat (String.length (d +:+ stem)) - (Py.rfind "/" d + 1))
            = String.length (d' +:+ stem)) as ->.
    { rewrite !str_length_app. unfold d'. rewrite str_length_drop. lia. }
    rewrite <- str_app_assoc, str_take_app_length. by apply has_other_app. }
  rewrite Hslice. unfold p. rewrite <- str_app_assoc.
  by rewrite str_take_app_length, str_drop_app_length.
Qed.

(** ** Classification by extension *)

Lemma mem_spec x l : Py.mem x l = true ↔ x ∈ l.
Proof. unfold Py.mem. apply bool_decide_eq_true. Qed.

Lemma video_extensions_dotted x :
  x ∈ video_extensions ↔ ∃ e, e ∈ spec_video_extensions ∧ x = "." +:+ e.
Proof.
  unfold video_extensions, spec_video_extensions. split.
  - rewrite !elem_of_cons, elem_of_nil.
    intros H. repeat (destruct H as [-> | H]; [eexists; split; [|reflexivity]; set_solver |]).
    destruct H.
  - intros (e & He & ->). revert He. rewrite !elem_of_cons, elem_of_nil.
    intros H. repeat (destruct H as [-> | H]; [set_solver |]). destruct H.
Qed.

Lemma lower_dot e : Py.lower ("." +:+ e) = "." +:+ Py.lower e.
Proof. reflexivity. Qed.

Lemma dot_app_inj s t : "." +:+ s = "." +:+ t → s = t.
Proof. rewrite !str_app_cons, !str_app_empty. by intros [= ->]. Qed.

(** C9: [is_video_file] answers true exactly when the extension of the path,
    as [os.path.splitext] gives it and lower-cased, is a dot followed by one
    of mp4, avi, mkv, mov, wmv, flv, webm, m4v; for a path [d stem . e] whose
    last component has the stem [stem] and the extension [e] this is the
    case exactly when [e], lower-cased, is one of the eight; and for every
    path that is not a video the audio path of the job is the input path
    itself, with no check, no message and no temporary file. *)
Theorem C9_is_video_by_extension (E : Env) (file_path : string) :
  (is_video_file file_path = true ↔
     ∃ e, e ∈ spec_video_extensions ∧ Py.lower (Py.splitext file_path).2 = "." +:+ e)
  ∧ (∀ d stem e,
       file_path = d +:+ stem +:+ "." +:+ e →
       Py.contains "/" stem = false → Py.has_other "." stem = true →
       Py.contains "." e = false → Py.contains "/" e = false →
       (is_video_file file_path = true ↔ Py.lower e ∈ spec_video_extensions))
  ∧ (is_video_file file_path = false → audio_stage E file_path = mret file_path).
Proof.
  assert (Hiff : is_video_file file_path = true ↔
     ∃ e, e ∈ spec_video_extensions ∧ Py.lower (Py.splitext file_path).2 = "." +:+ e).
  { unfold is_video_file. cbv zeta. rewrite mem_spec. apply video_extensions_dotted. }
  split; [exact Hiff|]. split.
  - intros d stem e -> Hstem Hother Hdot Hsep. rewrite Hiff.
    rewrite splitext_stem_ext by done. cbn [snd]. rewrite lower_dot. split.
    + intros (e' & He' & Heq). apply dot_app_inj in Heq. by subst.
    + intros He. by exists (Py.lower e).
  - intros H. unfold audio_stage. by rewrite H.
Qed.

(** ** The interactive side *)

Lemma handle_message_queue g m : result_queue (handle_message g m) = result_queue g.
Proof. destruct m as [k [d|]]; simpl; repeat case_bool_decide; reflexivity. Qed.

Lemma handle_message_flag g m : stop_flag (handle_message g m) = stop_flag g.
Proof. destruct m as [k [d|]]; simpl; repeat case_bool_decide; reflexivity. Qed.

Lemma foldl_handle_queue ms g :
  result_queue (foldl handle_message g ms) = result_queue g.
Proof.
  revert g. induction ms as [|m ms IH]; intros g; simpl; [done|].
  by rewrite IH, handle_message_queue.
Qed.

Lemma foldl_handle_flag ms g :
  stop_flag (foldl handle_message g ms) = stop_flag g.
Proof.
  revert g. induction ms as [|m ms IH]; intros g; simpl; [done|].
  by rewrite IH, handle_message_flag.
Qed.

Lemma check_queue_empties g : result_queue (check_queue g) = [].
Proof. unfold check_queue. by rewrite foldl_handle_queue. Qed.

Lemma check_queue_flag g : stop_flag (check_queue g) = stop_flag g.
Proof. unfold check_queue. by rewrite foldl_handle_flag. Qed.

Lemma start_transcription_queue g :
  result_queue (start_transcription g) = result_queue g.
Proof. unfold start_transcription. repeat case_match; reflexivity. Qed.


Lemma observed_app acts1 acts2 g :
  observed (acts1 ++ acts2) g = observed acts1 g ++ observed acts2 (run acts1 g).
Proof.
  revert g. induction acts1 as [|a acts1 IH]; intros g; [done|].
  simpl. rewrite IH. by rewrite app_assoc.
Qed.



Lemma stop_transcription_twice g :
  stop_transcription (stop_transcription g) = stop_transcription g.
Proof. reflexivity. Qed.

Lemma stop_transcription_iter n g :
  Nat.iter (S n) stop_transcription g = stop_transcription g.
Proof.
  induction n as [|n IH]; [done|].
  change (Nat.iter (S (S n)) stop_transcription g)
    with (stop_transcription (Nat.iter (S n) stop_transcription g)).
  by rewrite IH.
Qed.

Lemma step_flag_reset g a :
  stop_flag g = true → stop_flag (step g a) = false →
  a = Start ∧ accepts_start g = true.
Proof.
  intros Hset. destruct a; simpl.
  - unfold start_transcription, accepts_start.
    destruct (is_transcribing g); [congruence|].
    repeat case_bool_decide; simpl; try congruence. done.
  - done.
  - rewrite check_queue_flag. congruence.
  - congruence.
Qed.

Lemma accepts_start_active g : is_transcribing g = true → accepts_start g = false.
Proof. unfold accepts_start. by intros ->. Qed.

Lemma run_flag_stays acts g :
  stop_flag g = true → launches acts g = false → stop_flag (run acts g) = true.
Proof.
  revert g. induction acts as [|a acts IH]; intros g Hset Hl; [done|].
  simpl in Hl. apply orb_false_iff in Hl as [Ha Hl].
  unfold run. simpl. apply IH; [|done].
  destruct (stop_flag (step g a)) eqn:Hs; [done|].
  destruct (step_flag_reset g a Hset Hs) as [-> Hacc]. congruence.
Qed.

(** ** The monad *)

Lemma bind_val {A B} (m : M A) (f : A → M B) w a w' :
  m w = (Val a, w') → (m ≫= f) w = f a w'.
Proof. unfold mbind, M_bind. by intros ->. Qed.


Lemma bind_return {A B} (m : M A) (f : A → M B) w w' :
  m w = (Return, w') → (m ≫= f) w = (Return, w').
Proof. unfold mbind, M_bind. by intros ->. Qed.

Section Preserves.

Context (R : Worker → Worker → Prop) (P : message → Prop).
Hypothesis R_refl : ∀ w, R w w.
Hypothesis R_trans : ∀ w1 w2 w3, R w1 w2 → R w2 w3 → R w1 w3.
Hypothesis R_fs : ∀ f w, R w (with_fs f w).
Hypothesis R_dirs : ∀ f w, R w (with_model_dirs f w).
Hypothesis R_put : ∀ m w, P m → R w (with_emitted (λ q, q ++ [m]) w).

Lemma preserves_ret {A} (a : A) : preserves R (mret a).
Proof. intros w. apply R_refl. Qed.

Lemma preserves_raise {A} e : preserves R (@raise A e).
Proof. intros w. apply R_refl. Qed.

Lemma preserves_return {A} : preserves R (@return_ A).
Proof. intros w. apply R_refl. Qed.

Lemma preserves_get {A} (f : Worker → A) : preserves R (get f).
Proof. intros w. apply R_refl. Qed.

Lemma preserves_lift {A} (r : A + exn) : preserves R (lift r).
Proof. destruct r; intros w; apply R_refl. Qed.

Lemma preserves_fail_if o : preserves R (fail_if o).
Proof. destruct o; intros w; apply R_refl. Qed.

Lemma preserves_modify f : (∀ w, R w (f w)) → preserves R (modify f).
Proof. intros H w. apply H. Qed.

Lemma preserves_put m : P m → preserves R (put m).
Proof. intros H w. by apply R_put. Qed.

Lemma preserves_bind {A B} (m : M A) (f : A → M B) :
  preserves R m → (∀ a, preserves R (f a)) → preserves R (m ≫= f).
Proof.
  intros Hm Hf w. specialize (Hm w). unfold mbind, M_bind.
  destruct (m w) as [[a| |e] w1]; simpl in *; [|done..].
  eapply R_trans; [exact Hm|apply Hf].
Qed.

Lemma preserves_try_except {A} (body : M A) handler :
  preserves R body →
  (∀ e h, handler e = Some h → preserves R h) →
  preserves R (try_except body handler).
Proof.
  intros Hb Hh w. specialize (Hb w). unfold try_except.
  destruct (body w) as [[a| |e] w1]; simpl in *; [done..|].
  destruct (handler e) as [h|] eqn:He; [|done].
  eapply R_trans; [exact Hb|by eapply Hh].
Qed.

Lemma preserves_try_finally {A} (body : M A) fin :
  preserves R body → preserves R fin → preserves R (try_finally body fin).
Proof.
  intros Hb Hf w. specialize (Hb w). unfold try_finally.
  destruct (body w) as [r w1]. specialize (Hf w1). simpl in *.
  destruct (fin w1) as [[a| |e] w2]; simpl in *; by eapply R_trans.
Qed.

Lemma preserves_call body : preserves R body → preserves R (call body).
Proof.
  intros Hb w. specialize (Hb w). unfold call.
  by destruct (body w) as [[a| |e] w1].
Qed.

Context (E : Env).
Hypothesis P_status : ∀ s, P (Status s).
Hypothesis P_log : ∀ s, P (Log s).

Ltac pres :=
  repeat match goal with
    | |- preserves _ (mret _) => apply preserves_ret
    | |- preserves _ (raise _) => apply preserves_raise
    | |- preserves _ return_ => apply preserves_return
    | |- preserves _ (get _) => apply preserves_get
    | |- preserves _ (lift _) => apply preserves_lift
    | |- preserves _ (fail_if _) => apply preserves_fail_if
    | |- preserves _ (put _) => apply preserves_put; solve [auto]
    | |- preserves _ (modify _) => apply preserves_modify; solve [auto]
    | |- preserves _ (_ ≫= _) => apply preserves_bind; [|intros ?]
    | |- preserves _ (try_except _ _) => apply preserves_try_except; [|intros ? ? ?]
    | |- preserves _ (match ?x with _ => _ end) => destruct x
    | H : Some _ = Some _ |- _ => injection H as <-
    | H : None = Some _ |- _ => discriminate H
    | H : match exn_cls ?e with _ => _ end = Some _ |- _ => destruct (exn_cls e)
    | H : except_Exception _ ?e = Some _ |- _ =>
        unfold except_Exception in H; destruct (is_Exception (exn_cls e))
    end.

Lemma preserves_unlink p : preserves R (unlink E p).
Proof. unfold unlink, exists_. pres. Qed.

Lemma preserves_NamedTemporaryFile : preserves R (NamedTemporaryFile E).
Proof. unfold NamedTemporaryFile. pres. Qed.

Lemma preserves_WhisperModel p : preserves R (WhisperModel E p).
Proof. unfold WhisperModel. pres. Qed.

Lemma preserves_getitem d k : preserves R (getitem d k).
Proof. unfold getitem. pres. Qed.

Lemma preserves_return_if_set ck : preserves R (return_if_set E ck).
Proof. unfold return_if_set, is_set. pres. Qed.

Lemma preserves_extract_audio_from_video p :
  preserves R (extract_audio_from_video E p).
Proof.
  unfold extract_audio_from_video, write_audiofile, exists_.
  pres; first [apply preserves_NamedTemporaryFile | apply preserves_unlink].
Qed.

Lemma preserves_load_model model_size : preserves R (load_model E model_size).
Proof.
  unfold load_model, download_model.
  pres; first [apply preserves_getitem | apply preserves_WhisperModel].
Qed.

Lemma preserves_write_segments out segs i n :
  preserves R (write_segments E out segs i n).
Proof.
  revert i n. induction segs as [|e|s rest IH]; intros i n; simpl.
  - pres.
  - pres.
  - unfold is_set, f_write. pres. apply IH.
Qed.

Lemma preserves_transcribe_stage st audio_path :
  preserves R (transcribe_stage E st audio_path).
Proof.
  unfold transcribe_stage.
  pres; first [apply preserves_return_if_set | apply preserves_load_model].
Qed.

Hypothesis P_success : ∀ s, P (Success s).

Lemma preserves_write_stage out segs : preserves R (write_stage E out segs).
Proof.
  unfold write_stage, open_w, is_set.
  pres. apply preserves_write_segments.
Qed.

Hypothesis R_temp : ∀ p w, R w (with_temp_audio_path p w).

Lemma preserves_audio_stage p : preserves R (audio_stage E p).
Proof.
  unfold audio_stage. pres.
  - apply preserves_return_if_set.
  - apply preserves_extract_audio_from_video.
Qed.

Lemma preserves_setup_stage st : preserves R (setup_stage E st).
Proof.
  unfold setup_stage. pres; [apply preserves_audio_stage | apply preserves_transcribe_stage].
Qed.

Lemma preserves_worker_body st : preserves R (worker_body E st).
Proof.
  unfold worker_body. pres; [apply preserves_setup_stage | apply preserves_write_stage].
Qed.

End Preserves.

(** ** The queue only grows *)

Lemma grows_by_refl P w : grows_by P w w.
Proof. exists []. by rewrite app_nil_r. Qed.

Lemma grows_by_same P w w' : emitted w' = emitted w → grows_by P w w'.
Proof. intros H. exists []. by rewrite app_nil_r. Qed.

Lemma grows_by_trans P w1 w2 w3 :
  grows_by P w1 w2 → grows_by P w2 w3 → grows_by P w1 w3.
Proof.
  intros (ms1 & H1 & F1) (ms2 & H2 & F2). exists (ms1 ++ ms2).
  split; [by rewrite H2, H1, app_assoc | by apply Forall_app].
Qed.

Lemma grows_by_put P m w : P m → grows_by P w (with_emitted (λ q, q ++ [m]) w).
Proof. intros H. exists [m]. split; [done | by constructor]. Qed.

Lemma grows_by_messages_of P {A} (m : M A) w :
  grows_by P w (m w).2 →
  emitted (m w).2 = emitted w ++ messages_of m w ∧ Forall P (messages_of m w).
Proof.
  intros (ms & H & F). unfold messages_of. rewrite H, drop_app_length. done.
Qed.

(** No stage of the body puts [Finished]. *)
Lemma worker_body_not_finished E st : preserves (grows_by not_finished) (worker_body E st).
Proof.
  apply preserves_worker_body with (P := not_finished);
    eauto using grows_by_refl, grows_by_trans, grows_by_put;
    intros; first [by apply grows_by_same | reflexivity].
Qed.

(** No stage of the body puts an [Error]: only the handler does. *)
Lemma worker_body_not_error E st : preserves (grows_by not_error) (worker_body E st).
Proof.
  apply preserves_worker_body with (P := not_error);
    eauto using grows_by_refl, grows_by_trans, grows_by_put;
    intros; first [by apply grows_by_same | reflexivity].
Qed.

(** ** The [finally] clause and the worker as a whole *)

Lemma worker_finally_eq E w :
  worker_finally E w = (Val (), with_emitted (λ q, q ++ [Finished]) (after_cleanup E w)).
Proof.
  unfold worker_finally, after_cleanup, exists_, unlink, exists_, try_except, fail_if, get, put, modify.
  unfold mbind, M_bind, mret, M_ret. simpl.
  destruct (temp_audio_path w) as [p|]; [|done].
  destruct (bool_decide (p ≠ "")); simpl; [|done].
  destruct (bool_decide (is_Some (fs w !! p))) eqn:Hp; simpl; [|done].
  destruct (unlink_error E p) as [e|]; simpl; [done|].
  by rewrite Hp.
Qed.

Lemma emitted_after_cleanup E w :
  emitted (after_cleanup E w) = emitted w ++ cleanup_log E w.
Proof.
  unfold after_cleanup, cleanup_log.
  repeat case_match; simpl; by rewrite ?app_nil_r.
Qed.

Lemma emitted_after_body r :
  emitted (after_body r) =
  emitted r.2 ++ match r.1 with Raise e => error_report e | _ => [] end.
Proof. unfold after_body. destruct r as [[a| |e] w]; simpl; by rewrite ?app_nil_r. Qed.

Lemma with_emitted_nil w : with_emitted (λ q, q ++ []) w = w.
Proof. destruct w. unfold with_emitted. simpl. by rewrite app_nil_r. Qed.

Lemma transcription_worker_eq E st w :
  transcription_worker E st w =
  (worker_outcome (worker_body E st (with_temp_audio_path None w)).1,
   with_emitted (λ q, q ++ [Finished])
     (after_cleanup E (after_body (worker_body E st (with_temp_audio_path None w))))).
Proof.
  unfold transcription_worker, call, try_finally, try_except, except_Exception,
    worker_handler, after_body, worker_outcome, error_report.
  unfold mbind at 1. unfold M_bind at 1. unfold modify at 1.
  destruct (worker_body E st (with_temp_audio_path None w)) as [[[]| |e] w1]; simpl.
  - by rewrite worker_finally_eq.
  - by rewrite worker_finally_eq.
  - destruct (is_Exception (exn_cls e)).
    + unfold put, modify, mbind, M_bind. simpl.
      rewrite worker_finally_eq. unfold with_emitted. simpl.
      by rewrite <- app_assoc.
    + rewrite worker_finally_eq. by rewrite with_emitted_nil.
Qed.




Lemma cleanup_log_not_error E w : Forall not_error (cleanup_log E w).
Proof. unfold cleanup_log. repeat case_match; repeat constructor. Qed.

(** The messages of a job: those of the body, the error report when the body
    raised, the message of the cleanup, and [Finished]. *)
Lemma transcription_worker_messages E st w :
  let r := worker_body E st (with_temp_audio_path None w) in
  emitted (transcription_worker E st w).2 =
  emitted w ++ (messages_of (worker_body E st) (with_temp_audio_path None w)
                ++ match r.1 with Raise e => error_report e | _ => [] end
                ++ cleanup_log E (after_body r)) ++ [Finished].
Proof.
  intros r. rewrite transcription_worker_eq. simpl.
  rewrite emitted_after_cleanup, emitted_after_body. subst r.
  destruct (grows_by_messages_of not_finished (worker_body E st) (with_temp_audio_path None w))
    as [-> _]; [apply worker_body_not_finished|].
  simpl. by rewrite <- !app_assoc.
Qed.

(** ** The segment loop *)

Lemma str_app_empty_r s : s +:+ "" = s.
Proof. induction s as [|a s IH]; [done|]. by rewrite str_app_cons, IH. Qed.

Lemma with_fs_id f w : (∀ m, f m = m) → with_fs f w = w.
Proof. intros H. destruct w. unfold with_fs. simpl. by rewrite H. Qed.

Lemma with_fs_compose f g w : with_fs f (with_fs g w) = with_fs (f ∘ g) w.
Proof. reflexivity. Qed.

Lemma with_fs_ext f g w : (∀ m, f m = g m) → with_fs f w = with_fs g w.
Proof. intros H. unfold with_fs. by rewrite H. Qed.

Lemma lines_of_cons s l :
  lines_of (s :: l) = (Py.strip (text s) +:+ newline) +:+ lines_of l.
Proof. reflexivity. Qed.

(** While the flag is clear and the writes succeed, the loop appends one line
    per segment and counts it. *)
Lemma write_segments_prefix E out l rest i n w :
  (∀ j, i ≤ j < i + length l → flag_at E (CkSegment j) = false ∧ write_error E j = None) →
  write_segments E out (stream_app l rest) i n w =
  write_segments E out rest (i + length l) (n + length l)
    (with_fs (alter (λ c, c +:+ lines_of l) out) w).
Proof.
  revert i n w. induction l as [|s l IH]; intros i n w H.
  - simpl. rewrite !Nat.add_0_r. f_equal. symmetry. apply with_fs_id.
    intros m. apply map_eq. intros k. rewrite lookup_alter.
    case_decide; [subst|done]. destruct (m !! k); simpl; [|done].
    by rewrite str_app_empty_r.
  - simpl stream_app. simpl write_segments.
    destruct (H i) as [Hflag Hwrite]; [simpl; lia|].
    unfold is_set, f_write. unfold mbind, M_bind, mret, M_ret. rewrite Hflag, Hwrite.
    simpl. unfold modify. rewrite IH.
    + simpl length. replace (S i + length l) with (i + S (length l)) by lia.
      replace (S n + length l) with (n + S (length l)) by lia.
      f_equal. rewrite with_fs_compose. apply with_fs_ext. intros m.
      unfold compose. rewrite alter_alter_eq. apply alter_ext. intros c _.
      unfold compose. by rewrite str_app_assoc.
    + intros j Hj. apply H. simpl. lia.
Qed.

Lemma count_lines_app s t : count_lines (s +:+ t) = count_lines s + count_lines t.
Proof.
  induction s as [|a s IH]; [done|]. rewrite str_app_cons. simpl. rewrite IH. lia.
Qed.

Lemma count_lines_none s : has_newline s = false → count_lines s = 0.
Proof.
  induction s as [|a s IH]; [done|]. simpl. intros H.
  apply orb_false_iff in H as [-> H]. by rewrite IH.
Qed.

(** One line per segment, provided no segment text has a line feed inside. *)
Lemma count_lines_lines_of l :
  Forall (λ s, has_newline (Py.strip (text s)) = false) l →
  count_lines (lines_of l) = length l.
Proof.
  induction 1 as [|s l Hs _ IH]; [done|].
  rewrite lines_of_cons, !count_lines_app, count_lines_none by done.
  rewrite IH. reflexivity.
Qed.

(** The stage when the loop is left by [break] after the segments of [l]. *)
Lemma write_stage_stopped E out l next rest w :
  open_error E out = None →
  (∀ i, 1 ≤ i ≤ length l → flag_at E (CkSegment i) = false ∧ write_error E i = None) →
  flag_at E (CkSegment (S (length l))) = true →
  write_stage E out (stream_app l (SSeg next rest)) w =
  (Val (),
   with_emitted
     (λ q, q ++ Log "Transcription stopped by user"
             :: (if flag_at E CkDone then [] else completion_messages (length l) out))
     (with_fs (insert out (lines_of l)) w)).
Proof.
  intros Hopen Hok Hstop. unfold write_stage, open_w.
  unfold mbind at 1 2. unfold M_bind at 1 2. rewrite Hopen. simpl fail_if.
  unfold mret at 1. unfold M_ret at 1. unfold modify at 1. unfold mbind. unfold M_bind at 1.
  rewrite write_segments_prefix by (intros j Hj; apply Hok; lia).
  simpl write_segments. unfold is_set, mbind, M_bind, mret, M_ret. rewrite Hstop.
  unfold put, modify. simpl.
  assert (Hfs : ∀ w', with_fs (alter (λ c, c +:+ lines_of l) out) (with_fs (insert out "") w')
                = with_fs (insert out (lines_of l)) w').
  { intros w'. rewrite with_fs_compose. apply with_fs_ext. intros m. simpl.
    by rewrite alter_insert_eq. }
  destruct (flag_at E CkDone); simpl.
  - rewrite <- Hfs. reflexivity.
  - rewrite <- Hfs. unfold with_emitted, completion_messages. simpl.
    rewrite <- !app_assoc. reflexivity.
Qed.

(** The stage when the generator is exhausted. *)
Lemma write_stage_completed E out l w :
  open_error E out = None →
  (∀ i, 1 ≤ i ≤ length l → flag_at E (CkSegment i) = false ∧ write_error E i = None) →
  write_stage E out (stream_of l) w =
  (Val (),
   with_emitted
     (λ q, q ++ (if flag_at E CkDone then [] else completion_messages (length l) out))
     (with_fs (insert out (lines_of l)) w)).
Proof.
  intros Hopen Hok. unfold write_stage, open_w, stream_of.
  unfold mbind at 1 2. unfold M_bind at 1 2. rewrite Hopen. simpl fail_if.
  unfold mret at 1. unfold M_ret at 1. unfold modify at 1. unfold mbind. unfold M_bind at 1.
  rewrite write_segments_prefix by (intros j Hj; apply Hok; lia).
  simpl write_segments. unfold is_set, mbind, M_bind, mret, M_ret.
  unfold put, modify. simpl.
  assert (Hfs : ∀ w', with_fs (alter (λ c, c +:+ lines_of l) out) (with_fs (insert out "") w')
                = with_fs (insert out (lines_of l)) w').
  { intros w'. rewrite with_fs_compose. apply with_fs_ext. intros m. simpl.
    by rewrite alter_insert_eq. }
  destruct (flag_at E CkDone); simpl.
  - rewrite <- Hfs. unfold with_emitted. simpl. rewrite app_nil_r.
    by destruct w.
  - rewrite <- Hfs. unfold with_emitted, completion_messages. simpl.
    rewrite <- !app_assoc. reflexivity.
Qed.

(** ** The claims about the worker as a whole *)

Lemma messages_of_eq {A} (m : M A) w ms :
  emitted (m w).2 = emitted w ++ ms → messages_of m w = ms.
Proof. intros H. unfold messages_of. by rewrite H, drop_app_length. Qed.

Lemma worker_body_messages P E st w :
  preserves (grows_by P) (worker_body E st) →
  emitted (worker_body E st w).2 = emitted w ++ messages_of (worker_body E st) w
  ∧ Forall P (messages_of (worker_body E st) w).
Proof. intros H. apply grows_by_messages_of, H. Qed.

Lemma transcription_worker_messages_of E st w :
  let r := worker_body E st (with_temp_audio_path None w) in
  messages_of (transcription_worker E st) w =
  (messages_of (worker_body E st) (with_temp_audio_path None w)
   ++ match r.1 with Raise e => error_report e | _ => [] end
   ++ cleanup_log E (after_body r)) ++ [Finished].
Proof. intros r. apply messages_of_eq, transcription_worker_messages. Qed.


(** Without an [Exception] that ends the body, the job has no [Error]. *)
Lemma worker_unreported_no_error E st w :
  (∀ e, (worker_body E st (with_temp_audio_path None w)).1 = Raise e →
        is_Exception (exn_cls e) = false) →
  Forall not_error (messages_of (transcription_worker E st) w).
Proof.
  intros Hr. rewrite transcription_worker_messages_of.
  destruct (worker_body_messages not_error E st (with_temp_audio_path None w))
    as [_ Hbody]; [apply worker_body_not_error|].
  repeat apply Forall_app_2; [exact Hbody| |apply cleanup_log_not_error|by repeat constructor].
  destruct (worker_body _ _ _).1 as [| |e] eqn:Hb; [constructor..|].
  unfold error_report. rewrite (Hr e eq_refl). constructor.
Qed.

Lemma worker_no_exception_no_error E st w :
  (∀ e, (worker_body E st (with_temp_audio_path None w)).1 ≠ Raise e) →
  Forall not_error (messages_of (transcription_worker E st) w).
Proof.
  intros Hr. apply worker_unreported_no_error. intros e He. by destruct (Hr e).
Qed.

(** C2 as it is stated fails for an exception that is no [Exception]: when
    [model.transcribe] is left by [SystemExit], the [except Exception]
    clause lets it pass, the job has no [Error] message, and the exception
    leaves the worker after [Finished] was put. *)
Lemma C2_SystemExit_is_not_reported :
  let st := sample_state "/data/talk.mp3" "tiny" in
  let w := sample_worker {[tiny_dir]} in
  (worker_body exiting_env st (with_temp_audio_path None w)).1 = Raise (Exn SystemExit "1")
  ∧ (transcription_worker exiting_env st w).1 = Raise (Exn SystemExit "1")
  ∧ messages_of (transcription_worker exiting_env st) w
    = [ Status "Loading model..."; Log "Loading model: tiny";
        Status "Transcribing..."; Log "Starting transcription of file: talk.mp3";
        Finished ]
  ∧ Forall (λ m, is_error m = false) (messages_of (transcription_worker exiting_env st) w).
Proof.
  cbv zeta. split; [vm_compute; reflexivity|]. split; [vm_compute; reflexivity|].
  assert (Hms : messages_of
            (transcription_worker exiting_env (sample_state "/data/talk.mp3" "tiny"))
            (sample_worker {[tiny_dir]})
          = [ Status "Loading model..."; Log "Loading model: tiny";
              Status "Transcribing..."; Log "Starting transcription of file: talk.mp3";
              Finished ]) by (vm_compute; reflexivity).
  split; [exact Hms|]. rewrite Hms. repeat constructor.
Qed.

(** C2, amended: an exception derived from [Exception] that ends the body of
    the worker (every such failure of a stage that no clause inside the body
    handles) does not leave the worker: it is reported by exactly one
    [Error] message with a readable text and one log line, with no [Error]
    before or after, and [Finished] follows.  A body that ends without an
    exception gives no [Error] at all and the worker ends normally.  An
    exception that is no [Exception] passes the clause: the job has no
    [Error], [Finished] is still its last message, and the exception leaves
    the worker; nothing else ever leaves it.  And when deleting the
    temporary audio file fails in the [finally] clause, the job ends with a
    warning in the log and [Finished], nothing else. *)
Theorem C2_failures_become_error_messages (E : Env) (st : AppState) (w : Worker) :
  let r := worker_body E st (with_temp_audio_path None w) in
  let ms := messages_of (transcription_worker E st) w in
  (∀ e, r.1 = Raise e → is_Exception (exn_cls e) = true →
     (transcription_worker E st w).1 = Val ()
     ∧ ∃ pre cleanup,
         ms = pre ++ [Error ("An error occurred: " +:+ exn_str e);
                      Log ("ERROR: An error occurred: " +:+ exn_str e)]
                  ++ cleanup ++ [Finished]
         ∧ Forall (λ m, is_error m = false) pre
         ∧ Forall (λ m, is_error m = false) cleanup)
  ∧ ((∀ e, r.1 ≠ Raise e) →
     (transcription_worker E st w).1 = Val ()
     ∧ Forall (λ m, is_error m = false) ms)
  ∧ (∀ e, r.1 = Raise e → is_Exception (exn_cls e) = false →
     (transcription_worker E st w).1 = Raise e
     ∧ Forall (λ m, is_error m = false) ms
     ∧ last ms = Some Finished)
  ∧ (∀ e, (transcription_worker E st w).1 = Raise e →
     r.1 = Raise e ∧ is_Exception (exn_cls e) = false)
  ∧ (transcription_worker E st w).1 ≠ Return
  ∧ (∀ p msg, temp_audio_path r.2 = Some p → p ≠ "" → is_Some (fs r.2 !! p) →
       unlink_error E p = Some msg →
       ms = messages_of (worker_body E st) (with_temp_audio_path None w)
            ++ match r.1 with Raise e => error_report e | _ => [] end
            ++ [Log ("Warning: Could not delete temporary file: " +:+ msg); Finished]).
Proof.
  intros r ms.
  assert (Hout : (transcription_worker E st w).1 = worker_outcome r.1)
    by (by rewrite transcription_worker_eq).
  split; [|split; [|split; [|split; [|split]]]].
  - intros e He Hcls. split; [by rewrite Hout, He; simpl; rewrite Hcls|].
    exists (messages_of (worker_body E st) (with_temp_audio_path None w)),
           (cleanup_log E (after_body r)).
    split; [|split].
    + unfold ms. rewrite transcription_worker_messages_of. fold r. rewrite He.
      unfold error_report. rewrite Hcls. by rewrite <- !app_assoc.
    + apply (worker_body_messages not_error), worker_body_not_error.
    + apply cleanup_log_not_error.
  - intros Hne. split; [|by apply worker_no_exception_no_error].
    rewrite Hout. destruct r.1 as [| |e] eqn:Hr; [done..|]. by destruct (Hne e).
  - intros e He Hcls. split; [by rewrite Hout, He; simpl; rewrite Hcls|]. split.
    + apply worker_unreported_no_error. fold r. intros e' He'.
      rewrite He in He'. by injection He' as <-.
    + unfold ms. rewrite transcription_worker_messages_of. apply last_snoc.
  - intros e He. rewrite Hout in He.
    destruct r.1 as [| |e'] eqn:Hr; simpl in He; [done..|].
    destruct (is_Exception (exn_cls e')) eqn:Hcls; [done|].
    injection He as <-. done.
  - rewrite Hout. destruct r.1 as [| |e]; simpl; [done..|].
    by destruct (is_Exception (exn_cls e)).
  - intros p msg Htemp Hp Hfile Hunlink.
    unfold ms. rewrite transcription_worker_messages_of. fold r.
    assert (cleanup_log E (after_body r)
            = [Log ("Warning: Could not delete temporary file: " +:+ msg)]) as ->.
    { unfold cleanup_log.
      assert (temp_audio_path (after_body r) = Some p) as ->
        by (unfold after_body; by destruct r.1).
      assert (fs (after_body r) = fs r.2) as ->
        by (unfold after_body; by destruct r.1).
      rewrite Hunlink, !bool_decide_eq_true_2 by done. done. }
    by rewrite <- !app_assoc.
Qed.

(** ** Cancellation in the segment loop *)

Lemma worker_body_after_setup E st w segments :
  (setup_stage E st w).1 = Val segments →
  worker_body E st w = write_stage E (output_file st) segments (setup_stage E st w).2.
Proof.
  intros H. unfold worker_body. apply bind_val.
  destruct (setup_stage E st w) as [r w1]. simpl in H. by subst.
Qed.

Lemma setup_stage_messages E st w :
  emitted (setup_stage E st w).2 = emitted w ++ messages_of (setup_stage E st) w.
Proof.
  apply (grows_by_messages_of (λ _, True)).
  apply preserves_setup_stage with (P := λ _, True);
    eauto using grows_by_refl, grows_by_trans, grows_by_put;
    intros; by apply grows_by_same.
Qed.

Lemma fs_after_cleanup_other E w p :
  temp_audio_path w ≠ Some p → fs (after_cleanup E w) !! p = fs w !! p.
Proof.
  intros H. unfold after_cleanup. destruct (temp_audio_path w) as [q|]; [|done].
  repeat case_match; try done. simpl. apply lookup_delete_ne. congruence.
Qed.

(** The value of the loop, [processed_segments], when it is left by [break]
    after the segments of [l]. *)
Lemma write_segments_stopped_value E out l next rest w :
  (∀ i, 1 ≤ i ≤ length l → flag_at E (CkSegment i) = false ∧ write_error E i = None) →
  flag_at E (CkSegment (S (length l))) = true →
  (write_segments E out (stream_app l (SSeg next rest)) 1 0 w).1 = Val (length l).
Proof.
  intros Hok Hstop.
  rewrite write_segments_prefix by (intros j Hj; apply Hok; lia).
  simpl write_segments. unfold is_set, mbind, M_bind, mret, M_ret. by rewrite Hstop.
Qed.

(** A job that is stopped between two segments of the loop. *)
Lemma stopped_job E st w written next rest :
  let w0 := with_temp_audio_path None w in
  let segments := stream_app written (SSeg next rest) in
  let out := output_file st in
  let w1 := (setup_stage E st w0).2 in
  (setup_stage E st w0).1 = Val segments →
  open_error E out = None →
  (∀ i, 1 ≤ i ≤ length written → flag_at E (CkSegment i) = false ∧ write_error E i = None) →
  flag_at E (CkSegment (S (length written))) = true →
  temp_audio_path w1 ≠ Some out →
  fs (transcription_worker E st w).2 !! out = Some (lines_of written)
  ∧ messages_of (write_stage E out segments) w1
    = Log "Transcription stopped by user"
        :: (if flag_at E CkDone then [] else completion_messages (length written) out)
  ∧ Log "Transcription stopped by user" ∈ messages_of (transcription_worker E st) w
  ∧ Forall not_error (messages_of (transcription_worker E st) w).
Proof.
  intros w0 segments out w1 Hsetup Hopen Hok Hstop Htemp.
  assert (Hbody : worker_body E st w0 = write_stage E out segments w1)
    by (by apply worker_body_after_setup).
  pose proof (write_stage_stopped E out written next rest w1 Hopen Hok Hstop) as Hstage.
  fold segments in Hstage.
  assert (Hmsgs : messages_of (write_stage E out segments) w1
            = Log "Transcription stopped by user"
              :: (if flag_at E CkDone then [] else completion_messages (length written) out)).
  { apply messages_of_eq. by rewrite Hstage. }
  split; [|split; [|split]].
  - rewrite transcription_worker_eq. fold w0. rewrite Hbody, Hstage.
    unfold after_body. simpl.
    rewrite fs_after_cleanup_other by done. simpl. apply lookup_insert_eq.
  - exact Hmsgs.
  - rewrite transcription_worker_messages_of. fold w0.
    apply elem_of_app. left. apply elem_of_app. left.
    assert (messages_of (worker_body E st) w0
            = messages_of (setup_stage E st) w0 ++ messages_of (write_stage E out segments) w1) as ->.
    { apply messages_of_eq. rewrite Hbody.
      destruct (grows_by_messages_of (λ _, True) (write_stage E out segments) w1) as [-> _].
      - rewrite Hstage. simpl. eexists. split; [done|]. by apply Forall_true.
      - fold w1. unfold w1 at 1. rewrite setup_stage_messages. by rewrite app_assoc. }
    rewrite Hmsgs. apply elem_of_app. right. apply list_elem_of_here.
  - apply worker_no_exception_no_error. fold w0. rewrite Hbody, Hstage. done.
Qed.

(** C3 as it is stated fails when the text of a written segment has a line
    feed inside, which [strip] leaves in place: of ten segments three are
    written before the stop, [processed_segments] is three, and the output
    file has four lines. *)
Lemma C3_inner_line_feed_gives_four_lines :
  let E := sample_env (stop_after 3) (stream_of two_line_segments) in
  let st := sample_state "/data/talk.mp3" "tiny" in
  let w := sample_worker {[tiny_dir]} in
  let w1 := (setup_stage E st (with_temp_audio_path None w)).2 in
  length two_line_segments = 10
  ∧ (setup_stage E st (with_temp_audio_path None w)).1 = Val (stream_of two_line_segments)
  ∧ flag_at E (CkSegment 1) = false ∧ flag_at E (CkSegment 2) = false
  ∧ flag_at E (CkSegment 3) = false ∧ flag_at E (CkSegment 4) = true
  ∧ (write_segments E "/data/talk.txt" (stream_of two_line_segments) 1 0
       (with_fs (insert "/data/talk.txt" "") w1)).1 = Val 3
  ∧ fs (transcription_worker E st w).2 !! "/data/talk.txt"
    = Some (lines_of (take 3 two_line_segments))
  ∧ count_lines (lines_of (take 3 two_line_segments)) = 4.
Proof.
  cbv zeta. split; [reflexivity|]. split; [vm_compute; reflexivity|].
  do 4 (split; [reflexivity|]).
  split; [vm_compute; reflexivity|]. split; [vm_compute; reflexivity|].
  vm_compute; reflexivity.
Qed.

(** C3, amended: the flag is read before each segment is written.  When a
    job has reached the loop, the flag is clear before each of the segments
    of [written] (whose writes succeed) and set before the next segment of
    the sequence, then the output file holds exactly the lines written for
    the segments of [written], as many lines as segments when no segment
    text has a line feed inside, [processed_segments] is the number of
    segments written, the stage puts the log line of a stop by the user, the
    only count it can report is the number of segments written, and the job
    has that log line and no [Error].  With a sequence of ten segments and
    [written] its first three, whose texts have no line feed inside, the
    file has exactly three lines. *)
Theorem C3_stop_between_segments (E : Env) (st : AppState) (w : Worker)
    (written : list Segment) (next : Segment) (rest : seg_stream) :
  let w0 := with_temp_audio_path None w in
  let segments := stream_app written (SSeg next rest) in
  let out := output_file st in
  let w1 := (setup_stage E st w0).2 in
  let final := (transcription_worker E st w).2 in
  (setup_stage E st w0).1 = Val segments →
  open_error E out = None →
  (∀ i, 1 ≤ i ≤ length written → flag_at E (CkSegment i) = false ∧ write_error E i = None) →
  flag_at E (CkSegment (S (length written))) = true →
  temp_audio_path w1 ≠ Some out →
  fs final !! out = Some (lines_of written)
  ∧ (Forall (λ s, has_newline (Py.strip (text s)) = false) written →
     count_lines (lines_of written) = length written)
  ∧ (write_segments E out segments 1 0 (with_fs (insert out "") w1)).1 = Val (length written)
  ∧ messages_of (write_stage E out segments) w1
    = Log "Transcription stopped by user"
        :: (if flag_at E CkDone then [] else completion_messages (length written) out)
  ∧ Log "Transcription stopped by user" ∈ messages_of (transcription_worker E st) w
  ∧ Forall (λ m, is_error m = false) (messages_of (transcription_worker E st) w).
Proof.
  intros w0 segments out w1 final Hsetup Hopen Hok Hstop Htemp.
  destruct (stopped_job E st w written next rest Hsetup Hopen Hok Hstop Htemp)
    as (Hfs & Hmsgs & Hin & Hnoerr).
  split; [exact Hfs|]. split; [apply count_lines_lines_of|].
  split; [by apply write_segments_stopped_value|].
  split; [exact Hmsgs|]. split; [exact Hin|exact Hnoerr].
Qed.

(** ** Truncation of the output file *)

(** Opening the output file discards what it held: the stage runs as if the
    file had been empty. *)
Lemma open_w_ok E out w :
  open_error E out = None → open_w E out w = (Val (), with_fs (insert out "") w).
Proof. intros H. unfold open_w. unfold mbind, M_bind. by rewrite H. Qed.

Lemma write_stage_truncates E out segments w :
  open_error E out = None →
  write_stage E out segments w = write_stage E out segments (with_fs (insert out "") w).
Proof.
  intros Hopen. unfold write_stage.
  rewrite (bind_val _ _ w _ _ (open_w_ok E out w Hopen)).
  rewrite (bind_val _ _ (with_fs (insert out "") w) _ _ (open_w_ok E out _ Hopen)).
  rewrite with_fs_compose.
  rewrite (with_fs_ext (insert out "" ∘ insert out "") (insert out "")); [done|].
  intros m. simpl. apply insert_insert_eq.
Qed.

(** C10 as it is stated fails when the generator yields no segment: the job
    reaches the loop with the flag set, the old content of the output file
    is gone, and the job puts [Finished] but no log line of a stop. *)
Lemma C10_no_stop_log_without_segments :
  let E := sample_env (stop_after 0) SEnd in
  let st := sample_state "/data/talk.mp3" "tiny" in
  let w := sample_worker {[tiny_dir]} in
  (setup_stage E st (with_temp_audio_path None w)).1 = Val SEnd
  ∧ flag_at E (CkSegment 1) = true
  ∧ fs (transcription_worker E st w).2 !! "/data/talk.txt" = Some ""
  ∧ messages_of (transcription_worker E st) w
    = [ Status "Loading model..."; Log "Loading model: tiny";
        Status "Transcribing..."; Log "Starting transcription of file: talk.mp3";
        Log "Detected language: en (probability: 0.98)";
        Log "Approximate duration: 31.20 seconds";
        Finished ]
  ∧ Log "Transcription stopped by user" ∉ messages_of (transcription_worker E st) w.
Proof.
  cbv zeta. split; [vm_compute; reflexivity|]. split; [reflexivity|].
  split; [vm_compute; reflexivity|].
  assert (Hms : messages_of
            (transcription_worker (sample_env (stop_after 0) SEnd)
               (sample_state "/data/talk.mp3" "tiny")) (sample_worker {[tiny_dir]})
          = [ Status "Loading model..."; Log "Loading model: tiny";
              Status "Transcribing..."; Log "Starting transcription of file: talk.mp3";
              Log "Detected language: en (probability: 0.98)";
              Log "Approximate duration: 31.20 seconds";
              Finished ]) by (vm_compute; reflexivity).
  split; [exact Hms|]. rewrite Hms.
  rewrite !not_elem_of_cons. repeat split; try discriminate. apply not_elem_of_nil.
Qed.

(** C10, amended: for a job that reaches the loop, opening the output file
    discards what the file held, before any check of the loop; and when the
    generator yields a first segment and the flag is set at the first check
    of the loop, the job leaves the output file existing and empty, the
    stage puts the log line of a stop, and the job ends with [Finished]. *)
Theorem C10_output_truncated_before_first_check (E : Env) (st : AppState) (w : Worker)
    (first : Segment) (rest : seg_stream) :
  let w0 := with_temp_audio_path None w in
  let out := output_file st in
  let w1 := (setup_stage E st w0).2 in
  let final := (transcription_worker E st w).2 in
  (setup_stage E st w0).1 = Val (SSeg first rest) →
  open_error E out = None →
  flag_at E (CkSegment 1) = true →
  temp_audio_path w1 ≠ Some out →
  (∀ segments, write_stage E out segments w1
               = write_stage E out segments (with_fs (insert out "") w1))
  ∧ fs final !! out = Some ""
  ∧ messages_of (write_stage E out (SSeg first rest)) w1
    = Log "Transcription stopped by user"
        :: (if flag_at E CkDone then [] else completion_messages 0 out)
  ∧ Log "Transcription stopped by user" ∈ messages_of (transcription_worker E st) w
  ∧ last (messages_of (transcription_worker E st) w) = Some Finished.
Proof.
  intros w0 out w1 final Hsetup Hopen Hstop Htemp.
  split; [intros segments; by apply write_stage_truncates|].
  destruct (stopped_job E st w [] first rest Hsetup Hopen)
    as (Hfs & Hmsgs & Hin & _); [simpl; lia|done|done|].
  split; [exact Hfs|]. split; [exact Hmsgs|]. split; [exact Hin|].
  rewrite transcription_worker_messages_of. apply last_snoc.
Qed.

(** ** Extraction of the audio track *)

Lemma NamedTemporaryFile_ok E name w :
  new_temp_name E = inl name →
  NamedTemporaryFile E w = (Val name, with_fs (insert name "") w).
Proof. intros H. unfold NamedTemporaryFile. unfold mbind, M_bind. by rewrite H. Qed.


Lemma worker_body_after_audio E st w a w' :
  audio_stage E (audio_file st) w = (Val a, w') →
  worker_body E st w
  = (transcribe_stage E st a ≫= write_stage E (output_file st)) w'.
Proof.
  intros H. unfold worker_body, setup_stage.
  unfold mbind at 1 2. unfold M_bind at 1 2. by rewrite H.
Qed.




Lemma after_body_temp r : temp_audio_path (after_body r) = temp_audio_path r.2.
Proof. unfold after_body. by destruct r.1. Qed.

Lemma after_body_fs r : fs (after_body r) = fs r.2.
Proof. unfold after_body. by destruct r.1. Qed.




(** ** Resolution of the model *)

Lemma WhisperModel_outcome E p w :
  WhisperModel E p w
  = (match load_error E (model_dirs w) p with Some e => Raise e | None => Val p end, w).
Proof.
  unfold WhisperModel, get, fail_if. unfold mbind, M_bind, mret, M_ret, raise.
  by destruct (load_error E (model_dirs w) p).
Qed.

(** An unknown identifier: the lookup raises [KeyError], the first clause
    logs the substitution and loads ["base"]. *)
Lemma load_model_unknown E model_size w :
  AVAILABLE_MODELS !! model_size = None →
  load_model E model_size w
  = (put (Log ("Model '" +:+ model_size +:+ "' not found, using 'base'"));;
     WhisperModel E base_dir) w.
Proof.
  intros H. unfold load_model, try_except, getitem. rewrite H.
  unfold mbind at 1. unfold M_bind at 1. unfold raise at 1. cbn [exn_cls].
  rewrite lookup_base. reflexivity.
Qed.

(** A known identifier whose directory is refused as a repository
    identifier: the second clause downloads the model into its directory
    and loads it again. *)
Lemma load_model_downloads E model_size path repo e w :
  AVAILABLE_MODELS !! model_size = Some path →
  HF_MODEL_MAPPING !! model_size = Some repo →
  load_error E (model_dirs w) path = Some e →
  exn_cls e = HFValidationError →
  load_model E model_size w
  = (put (Log ("Model '" +:+ model_size +:+ "' not found, downloading..."));;
     download_model E model_size repo path;;
     put (Log ("Model '" +:+ model_size +:+ "' downloaded successfully"));;
     WhisperModel E path) w.
Proof.
  intros Hpath Hrepo Hload Hcls. unfold load_model, try_except, getitem.
  rewrite Hpath, Hrepo.
  unfold mbind at 1. unfold M_bind at 1. unfold mret at 1. unfold M_ret at 1.
  rewrite WhisperModel_outcome, Hload, Hcls. reflexivity.
Qed.

(** C7: for an identifier that is not in [AVAILABLE_MODELS], the resolution
    puts the log line of the substitution, nothing else, and goes on with
    the directory of ["base"]: it ends as loading ["base"] ends, with the
    model of ["base"] or with the exception of that load, and never with the
    [KeyError] of the lookup. *)
Theorem C7_unknown_model_falls_back_to_base (E : Env) (model_size : string) (w : Worker) :
  AVAILABLE_MODELS !! model_size = None →
  AVAILABLE_MODELS !! "base" = Some base_dir
  ∧ messages_of (load_model E model_size) w
    = [Log ("Model '" +:+ model_size +:+ "' not found, using 'base'")]
  ∧ (load_model E model_size w).1
    = match load_error E (model_dirs w) base_dir with
      | Some e => Raise e
      | None => Val base_dir
      end
  ∧ model_dirs (load_model E model_size w).2 = model_dirs w.
Proof.
  intros H. split; [exact lookup_base|].
  unfold messages_of. rewrite load_model_unknown by done.
  unfold mbind, M_bind, put, modify. rewrite WhisperModel_outcome. simpl.
  by rewrite drop_app_length.
Qed.

(** ** Start and Stop *)

(** C4 as it is stated fails when no job runs and no input file is chosen:
    Start neither clears the flag nor starts a worker thread. *)
Lemma C4_start_without_input_starts_nothing :
  let g := idle_gui "" "/data/talk.txt" in
  is_transcribing g = false
  ∧ ¬ (stop_flag (start_transcription g) = false
       ∧ threads_started (start_transcription g) = S (threads_started g)).
Proof. cbv zeta. split; [reflexivity|]. intros [H _]. vm_compute in H. discriminate. Qed.

(** C4, amended: while a job is active Start changes nothing, in particular
    it starts no second worker thread; with no job active and both paths
    chosen it clears the flag, marks the job active, empties the log and
    resets status, progress bar and buttons, starts one worker thread and
    returns without having run any of the worker (the queue is as it was);
    with no job active and a path missing it only shows an error dialog. *)
Theorem C4_start_guarded (g : GUI) :
  (is_transcribing g = true → start_transcription g = g)
  ∧ (is_transcribing g = false →
     audio_file (state g) ≠ "" → output_file (state g) ≠ "" →
     let g' := start_transcription g in
     stop_flag g' = false ∧ is_transcribing g' = true
     ∧ threads_started g' = S (threads_started g)
     ∧ log_text g' = "" ∧ status_label g' = "Initializing..."
     ∧ progress_bar g' = true ∧ start_button g' = false ∧ stop_button g' = true
     ∧ result_queue g' = result_queue g ∧ dialogs g' = dialogs g)
  ∧ (is_transcribing g = false →
     audio_file (state g) = "" ∨ output_file (state g) = "" →
     ∃ body, start_transcription g = show (showerror "Error" body) g).
Proof.
  unfold start_transcription. split; [by intros ->|]. split.
  - intros -> Hin Hout. rewrite !bool_decide_eq_false_2 by done. done.
  - intros -> Hmissing. case_bool_decide as Hin; [by eexists|].
    destruct Hmissing as [?|Hout]; [done|].
    rewrite bool_decide_eq_true_2 by done. by eexists.
Qed.

(** C8: Stop always leaves the flag set, calling it again changes nothing,
    and it is a total function of the window (it has no failure path).  A
    set flag is cleared by one step only: a Start that launches a job.
    While a job is active no step clears the flag, and along any run in
    which no job is launched a set flag stays set; a Start that launches a
    job clears it. *)
Theorem C8_stop_idempotent_flag_monotone :
  (∀ g, stop_flag (stop_transcription g) = true)
  ∧ (∀ g n, Nat.iter (S n) stop_transcription g = stop_transcription g)
  ∧ (∀ g a, stop_flag g = true → stop_flag (step g a) = false →
       a = Start ∧ accepts_start g = true)
  ∧ (∀ g a, is_transcribing g = true → stop_flag g = true → stop_flag (step g a) = true)
  ∧ (∀ acts g, stop_flag g = true → launches acts g = false →
       stop_flag (run acts g) = true)
  ∧ (∀ g, accepts_start g = true → stop_flag (step g Start) = false).
Proof.
  split; [done|]. split; [intros g n; apply stop_transcription_iter|].
  split; [apply step_flag_reset|]. split; [|split].
  - intros g a Hactive Hset.
    destruct (stop_flag (step g a)) eqn:Hs; [done|].
    destruct (step_flag_reset g a Hset Hs) as [_ Hacc].
    by rewrite accepts_start_active in Hacc.
  - intros acts g. apply run_flag_stays.
  - intros g. unfold accepts_start. simpl. unfold start_transcription.
    destruct (is_transcribing g); [done|]. simpl.
    repeat case_bool_decide; simpl; done.
Qed.

(** ** The statements at concrete runs *)


(** A job whose model cannot be loaded, and a job whose temporary file
    cannot be deleted. *)
Lemma C2_witness :
  let st := sample_state "/data/talk.mp3" "tiny" in
  let w := sample_worker {[tiny_dir]} in
  let e := Exn OSError "Unable to open file 'model.bin'" in
  let st' := sample_state "/data/talk.mp4" "tiny" in
  let r' := worker_body locked_temp_env st' (with_temp_audio_path None w) in
  ((worker_body broken_model_env st (with_temp_audio_path None w)).1 = Raise e
   ∧ (transcription_worker broken_model_env st w).1 = Val ()
   ∧ ∃ pre cleanup,
       messages_of (transcription_worker broken_model_env st) w
       = pre ++ [Error ("An error occurred: " +:+ exn_str e);
                 Log ("ERROR: An error occurred: " +:+ exn_str e)]
             ++ cleanup ++ [Finished]
       ∧ Forall (λ m, is_error m = false) pre
       ∧ Forall (λ m, is_error m = false) cleanup)
  ∧ (temp_audio_path r'.2 = Some "/tmp/tmpk3v9x2.wav"
     ∧ is_Some (fs r'.2 !! "/tmp/tmpk3v9x2.wav")
     ∧ ∃ pre, messages_of (transcription_worker locked_temp_env st') w
              = pre ++ [Log ("Warning: Could not delete temporary file: "
                             +:+ "[WinError 32] The process cannot access the file");
                        Finished]).
Proof.
  cbv zeta. split.
  - split; [vm_compute; reflexivity|].
    apply (proj1
      (C2_failures_become_error_messages broken_model_env
         (sample_state "/data/talk.mp3" "tiny") (sample_worker {[tiny_dir]}))).
    + vm_compute; reflexivity.
    + reflexivity.
  - split; [vm_compute; reflexivity|]. split; [vm_compute; by eexists|].
    rewrite (proj2 (proj2 (proj2 (proj2 (proj2
      (C2_failures_become_error_messages locked_temp_env
         (sample_state "/data/talk.mp4" "tiny") (sample_worker {[tiny_dir]}))))))
      "/tmp/tmpk3v9x2.wav"
      "[WinError 32] The process cannot access the file").
    + eexists. rewrite app_assoc. reflexivity.
    + vm_compute; reflexivity.
    + discriminate.
    + vm_compute; by eexists.
    + reflexivity.
Defined.

(** Ten segments, Stop while the third is written: three lines. *)
Lemma C3_witness :
  let E := sample_env (stop_after 3) (stream_of sample_segments) in
  let st := sample_state "/data/talk.mp3" "tiny" in
  let w := sample_worker {[tiny_dir]} in
  length sample_segments = 10
  ∧ fs (transcription_worker E st w).2 !! "/data/talk.txt"
    = Some (lines_of (take 3 sample_segments))
  ∧ count_lines (lines_of (take 3 sample_segments)) = 3
  ∧ Log "Transcription stopped by user" ∈ messages_of (transcription_worker E st) w
  ∧ Forall (λ m, is_error m = false) (messages_of (transcription_worker E st) w).
Proof.
  cbv zeta. split; [reflexivity|].
  destruct (C3_stop_between_segments
              (sample_env (stop_after 3) (stream_of sample_segments))
              (sample_state "/data/talk.mp3" "tiny") (sample_worker {[tiny_dir]})
              (take 3 sample_segments)
              {| text := " First, the quarterly numbers." |}
              (stream_of (drop 4 sample_segments)))
    as (Hfs & Hlines & _ & _ & Hin & Hnoerr).
  - vm_compute; reflexivity.
  - reflexivity.
  - intros i Hi. simpl in Hi. split; [|reflexivity].
    apply bool_decide_eq_false_2. lia.
  - reflexivity.
  - intros H. vm_compute in H. discriminate H.
  - split; [exact Hfs|]. split; [|by split].
    apply Hlines. repeat constructor.
Defined.

(** Start in an idle window with both paths chosen, and Start again while
    that job runs. *)
Lemma C4_witness :
  let g := idle_gui "/data/talk.mp3" "/data/talk.txt" in
  let g' := start_transcription g in
  (stop_flag g' = false ∧ is_transcribing g' = true ∧ threads_started g' = 1)
  ∧ start_transcription g' = g'.
Proof.
  cbv zeta. split.
  - destruct (proj1 (proj2 (C4_start_guarded (idle_gui "/data/talk.mp3" "/data/talk.txt"))))
      as (H1 & H2 & H3 & _); [reflexivity|discriminate|discriminate|].
    by repeat split.
  - apply (proj1 (C4_start_guarded _)). reflexivity.
Defined.


(** The identifier ["huge"] is not in the table. *)
Lemma C7_witness :
  let E := sample_env never_stopped SEnd in
  AVAILABLE_MODELS !! "huge" = None
  ∧ messages_of (load_model E "huge") (sample_worker {[base_dir]})
    = [Log "Model 'huge' not found, using 'base'"]
  ∧ (load_model E "huge" (sample_worker {[base_dir]})).1 = Val base_dir.
Proof.
  cbv zeta.
  assert (H : AVAILABLE_MODELS !! "huge" = None) by (vm_compute; reflexivity).
  split; [exact H|].
  destruct (C7_unknown_model_falls_back_to_base (sample_env never_stopped SEnd) "huge"
              (sample_worker {[base_dir]}) H) as (_ & Hms & Hr & _).
  split; [exact Hms|]. rewrite Hr. vm_compute. reflexivity.
Defined.

(** Stop pressed twice during a job, then Start pressed again. *)
Lemma C8_witness :
  let g := stop_transcription (start_transcription (idle_gui "/data/talk.mp3" "/data/talk.txt")) in
  is_transcribing g = true ∧ stop_flag g = true
  ∧ stop_flag (step g Start) = true
  ∧ launches [Stop; Start; Put Finished; Stop] g = false
  ∧ stop_flag (run [Stop; Start; Put Finished; Stop] g) = true.
Proof.
  cbv zeta. split; [reflexivity|]. split; [reflexivity|]. split.
  - apply (proj1 (proj2 (proj2 (proj2 C8_stop_idempotent_flag_monotone)))); reflexivity.
  - split; [reflexivity|].
    apply (proj1 (proj2 (proj2 (proj2 (proj2 C8_stop_idempotent_flag_monotone))))); reflexivity.
Defined.

(** An upper-case video extension, and an audio file. *)
Lemma C9_witness :
  is_video_file "/home/u/Clip.MP4" = true
  ∧ is_video_file "talk.mp3" = false
  ∧ audio_stage (sample_env never_stopped SEnd) "talk.mp3" = mret "talk.mp3".
Proof.
  split; [|split].
  - apply (proj1 (proj2 (C9_is_video_by_extension (sample_env never_stopped SEnd)
                           "/home/u/Clip.MP4")) "/home/u/" "Clip" "MP4");
      try reflexivity.
    vm_compute. set_solver.
  - reflexivity.
  - apply (proj2 (proj2 (C9_is_video_by_extension (sample_env never_stopped SEnd) "talk.mp3"))).
    reflexivity.
Defined.

(** Stop pressed before the first segment is written. *)
Lemma C10_witness :
  let E := sample_env (stop_after 0) (stream_of sample_segments) in
  let st := sample_state "/data/talk.mp3" "tiny" in
  let w := sample_worker {[tiny_dir]} in
  fs w !! "/data/talk.txt" = Some "an older transcript"
  ∧ fs (transcription_worker E st w).2 !! "/data/talk.txt" = Some ""
  ∧ Log "Transcription stopped by user" ∈ messages_of (transcription_worker E st) w
  ∧ last (messages_of (transcription_worker E st) w) = Some Finished.
Proof.
  cbv zeta. split; [vm_compute; reflexivity|].
  destruct (C10_output_truncated_before_first_check
              (sample_env (stop_after 0) (stream_of sample_segments))
              (sample_state "/data/talk.mp3" "tiny") (sample_worker {[tiny_dir]})
              {| text := " Good morning everyone." |}
              (stream_of (drop 1 sample_segments)))
    as (_ & Hfs & _ & Hin & Hlast).
  - vm_compute; reflexivity.
  - reflexivity.
  - reflexivity.
  - intros H. vm_compute in H. discriminate H.
  - by repeat split.
Defined.

(** * Further properties of the code *)

(** ** More on paths: what [splitext] returns *)

Lemma str_take_drop n s : Py.take n s +:+ Py.drop n s = s.
Proof.
  revert s. induction n as [|n IH]; intros [|a s]; try done.
  simpl. rewrite str_app_cons. by rewrite IH.
Qed.

Lemma str_app_inv_head s t u : s +:+ t = s +:+ u → t = u.
Proof.
  induction s as [|a s IH]; [done|]. rewrite !str_app_cons. intros [= H]. by apply IH.
Qed.

(** The index [rfind] returns holds the character looked for. *)
Lemma rfind_from_char c s i last :
  let k := Py.rfind_from c s i last in
  k = last ∨ ((i ≤ k)%Z ∧ ∃ t, Py.drop (Z.to_nat (k - i)) s = String c t).
Proof.
  revert i last. induction s as [|a s IH]; intros i last; simpl; [by left|].
  destruct (IH (i + 1)%Z (if Ascii.eqb a c then i else last)) as [Hk|[Hle [t Ht]]].
  - rewrite Hk. destruct (Ascii.eqb_spec a c) as [->|]; [|by left].
    right. split; [lia|]. exists s. by rewrite Z.sub_diag.
  - right. split; [lia|]. exists t.
    replace (Z.to_nat (Py.rfind_from c s (i + 1) (if Ascii.eqb a c then i else last) - i))
      with (S (Z.to_nat (Py.rfind_from c s (i + 1) (if Ascii.eqb a c then i else last) - (i + 1))))
      by lia.
    exact Ht.
Qed.

(** The two parts [splitext] returns make up the path, and the extension is
    empty or starts with a dot. *)
Lemma splitext_parts p :
  (Py.splitext p).1 +:+ (Py.splitext p).2 = p
  ∧ ((Py.splitext p).2 = "" ∨ ∃ e, (Py.splitext p).2 = String "." e).
Proof.
  unfold Py.splitext, Py._splitext.
  destruct (Z.ltb_spec (Py.rfind "/" p) (Py.rfind "." p)) as [Hlt|]; simpl.
  - destruct (Py.has_other "." _); simpl.
    + split; [apply str_take_drop|]. right.
      destruct (rfind_from_char "." p 0 (-1)) as [Hk|[_ [t Ht]]].
      * fold (Py.rfind "." p) in Hk.
        pose proof (rfind_from_bound "/" p 0 (-1)) as Hb. fold (Py.rfind "/" p) in Hb. lia.
      * fold (Py.rfind "." p) in Ht. rewrite Z.sub_0_r in Ht. by exists t.
    + split; [apply str_app_empty_r|by left].
  - split; [apply str_app_empty_r|by left].
Qed.

(** ** The file dialogs *)

Lemma browse_audio_cancelled g : browse_audio "" g = g.
Proof. reflexivity. Qed.

Lemma transcript_name_differs p : (Py.splitext p).1 +:+ "_transcript.txt" ≠ p.
Proof.
  destruct (splitext_parts p) as [Hp Hext]. intros H.
  rewrite <- Hp in H at 2. apply str_app_inv_head in H.
  destruct Hext as [Hnil|[e He]]; rewrite <- H in *; discriminate.
Qed.

(** X1: choosing a media file records it as the input; when no output path
    was set, the output becomes the input without its extension followed by
    "_transcript.txt", which is never the input file itself; an output path
    already set is kept; a cancelled dialog changes nothing. *)
Theorem X1_browse_audio_proposes_transcript_path (filename : string) (g : GUI) :
  (filename ≠ "" →
     audio_file (state (browse_audio filename g)) = filename
     ∧ (output_file (state g) = "" →
          output_file (state (browse_audio filename g))
          = (Py.splitext filename).1 +:+ "_transcript.txt"
          ∧ output_file (state (browse_audio filename g)) ≠ filename
          ∧ ∀ d stem e, filename = d +:+ stem +:+ "." +:+ e →
              Py.contains "/" stem = false → Py.has_other "." stem = true →
              Py.contains "." e = false → Py.contains "/" e = false →
              output_file (state (browse_audio filename g))
              = d +:+ stem +:+ "_transcript.txt")
     ∧ (output_file (state g) ≠ "" →
          output_file (state (browse_audio filename g)) = output_file (state g)))
  ∧ (filename = "" → browse_audio filename g = g).
Proof.
  split; [|by intros ->].
  intros Hf. unfold browse_audio. rewrite bool_decide_eq_true_2 by done. cbv zeta.
  split; [by case_bool_decide|]. split.
  - intros Hout. simpl. rewrite bool_decide_eq_true_2 by done. simpl.
    split; [done|]. split; [apply transcript_name_differs|].
    intros d stem e -> ????. rewrite splitext_stem_ext by done. simpl.
    by rewrite str_app_assoc.
  - intros Hout. simpl. by rewrite bool_decide_eq_false_2.
Qed.

Lemma X1_witness :
  let g := browse_audio "/data/in/interview.mp4" initial_gui in
  audio_file (state g) = "/data/in/interview.mp4"
  ∧ output_file (state g) = "/data/in/interview_transcript.txt"
  ∧ output_file (state (browse_audio "/data/other.wav" g)) = "/data/in/interview_transcript.txt".
Proof.
  cbv zeta.
  destruct (proj1 (X1_browse_audio_proposes_transcript_path "/data/in/interview.mp4" initial_gui))
    as (Ha & Hnew & _); [discriminate|].
  destruct (Hnew eq_refl) as (_ & _ & Hshape).
  split; [exact Ha|]. split.
  - apply (Hshape "/data/in/" "interview" "mp4"); reflexivity.
  - apply (proj1 (X1_browse_audio_proposes_transcript_path "/data/other.wav"
                    (browse_audio "/data/in/interview.mp4" initial_gui)));
      discriminate.
Defined.

Lemma str_app_nonempty_r s t : t ≠ "" → s +:+ t ≠ "".
Proof. destruct s; [done|]. by rewrite str_app_cons. Qed.

(** X2: in a window where no job runs, choosing a media file is enough for
    Start to launch a job: both paths are then set, so the next Start clears
    the flag and starts exactly one worker thread; and a second Start right
    after it starts none. *)
Theorem X2_start_accepted_after_browse_audio (filename : string) (g : GUI) :
  is_transcribing g = false → filename ≠ "" →
  let g1 := browse_audio filename g in
  let g2 := start_transcription g1 in
  accepts_start g1 = true
  ∧ is_transcribing g2 = true ∧ stop_flag g2 = false
  ∧ threads_started g2 = S (threads_started g)
  ∧ state g2 = state g1
  ∧ start_transcription g2 = g2.
Proof.
  intros Hidle Hf g1 g2.
  assert (Hin : audio_file (state g1) = filename).
  { unfold g1, browse_audio. rewrite bool_decide_eq_true_2 by done. cbv zeta.
    by case_bool_decide. }
  assert (Hout : output_file (state g1) ≠ "").
  { unfold g1, browse_audio. rewrite bool_decide_eq_true_2 by done. cbv zeta.
    case_bool_decide as Ho; simpl; [|exact Ho]. by apply str_app_nonempty_r. }
  assert (Hidle1 : is_transcribing g1 = false).
  { unfold g1, browse_audio. by repeat case_bool_decide. }
  assert (Hthreads : threads_started g1 = threads_started g).
  { unfold g1, browse_audio. by repeat case_bool_decide. }
  assert (Hacc : accepts_start g1 = true).
  { unfold accepts_start. rewrite Hidle1, Hin.
    by rewrite !bool_decide_eq_false_2. }
  split; [exact Hacc|].
  unfold g2, start_transcription. rewrite Hidle1, Hin.
  rewrite !bool_decide_eq_false_2 by done. simpl. by rewrite Hthreads.
Qed.

Lemma X2_witness :
  let g1 := browse_audio "/data/talk.mp3" initial_gui in
  accepts_start g1 = true ∧ threads_started (start_transcription g1) = 1.
Proof.
  cbv zeta.
  destruct (X2_start_accepted_after_browse_audio "/data/talk.mp3" initial_gui)
    as (H1 & _ & _ & H2 & _); [reflexivity|discriminate|].
  by split.
Defined.

(** ** The window over whole runs of events *)

Lemma handle_message_finished g m :
  is_finished m = true → handle_message g m = transcription_finished g.
Proof.
  destruct m as [k [d|]]; unfold is_finished; simpl; intros H;
    apply bool_decide_eq_true_1 in H; subst; reflexivity.
Qed.

Lemma handle_message_other_job g m :
  is_finished m = false →
  is_transcribing (handle_message g m) = is_transcribing g
  ∧ start_button (handle_message g m) = start_button g
  ∧ stop_button (handle_message g m) = stop_button g
  ∧ progress_bar (handle_message g m) = progress_bar g
  ∧ threads_started (handle_message g m) = threads_started g.
Proof.
  destruct m as [k [d|]]; unfold is_finished; simpl; intros H;
    apply bool_decide_eq_false_1 in H; repeat case_bool_decide; done.
Qed.

Lemma handle_message_controls g m :
  controls_follow_job g → controls_follow_job (handle_message g m).
Proof.
  intros (H1 & H2 & H3). destruct (is_finished m) eqn:Hm.
  - rewrite handle_message_finished by done. done.
  - unfold controls_follow_job.
    destruct (handle_message_other_job g m Hm) as (-> & -> & -> & -> & _). done.
Qed.

Lemma check_queue_controls g : controls_follow_job g → controls_follow_job (check_queue g).
Proof.
  unfold check_queue. intros H.
  assert (H0 : controls_follow_job (set_queue [] g)) by exact H.
  revert H0. generalize (set_queue [] g). clear H.
  induction (result_queue g) as [|m ms IH]; intros g0 H0; simpl; [done|].
  apply IH. by apply handle_message_controls.
Qed.

Lemma ui_step_controls g ev : controls_follow_job g → controls_follow_job (ui_step g ev).
Proof.
  intros H. destruct ev as [[| | |m]| | | |]; simpl; try exact H.
  - unfold start_transcription. destruct H as (H1 & H2 & H3).
    unfold controls_follow_job.
    destruct (is_transcribing g) eqn:Ht; [by rewrite Ht|].
    repeat case_bool_decide; simpl; rewrite ?Ht; done.
  - by apply check_queue_controls.
  - unfold browse_audio. repeat case_bool_decide; exact H.
  - unfold browse_output. case_bool_decide; exact H.
Qed.

(** X3: from the window as [__init__] builds it, whatever the user and the
    worker do, the Start button is enabled exactly when no job is active,
    and the Stop button is enabled and the progress bar runs exactly while
    one is. *)
Theorem X3_controls_follow_job (evs : list ui_event) :
  let g := ui_run evs initial_gui in
  start_button g = negb (is_transcribing g)
  ∧ stop_button g = is_transcribing g
  ∧ progress_bar g = is_transcribing g.
Proof.
  cbv zeta. change (controls_follow_job (ui_run evs initial_gui)).
  assert (H : controls_follow_job initial_gui) by done.
  revert H. generalize initial_gui. unfold ui_run.
  induction evs as [|ev evs IH]; intros g H; simpl; [done|].
  apply IH. by apply ui_step_controls.
Qed.

Lemma foldl_handle_threads ms g :
  threads_started (foldl handle_message g ms) = threads_started g.
Proof.
  revert g. induction ms as [|m ms IH]; intros g; simpl; [done|].
  rewrite IH. destruct (is_finished m) eqn:Hm.
  - by rewrite handle_message_finished.
  - by destruct (handle_message_other_job g m Hm) as (_ & _ & _ & _ & ->).
Qed.

Lemma finished_count_cons m ms :
  finished_count (m :: ms) = (if is_finished m then 1 else 0) + finished_count ms.
Proof.
  unfold finished_count. rewrite filter_cons.
  destruct (decide (is_finished m = true)) as [->|H]; [done|].
  by destruct (is_finished m).
Qed.

Lemma finished_count_app ms1 ms2 :
  finished_count (ms1 ++ ms2) = finished_count ms1 + finished_count ms2.
Proof. unfold finished_count. by rewrite filter_app, length_app. Qed.

Lemma foldl_handle_slack ms g :
  slack (foldl handle_message g ms) ≤ slack g + finished_count ms.
Proof.
  revert g. induction ms as [|m ms IH]; intros g; simpl; [lia|].
  rewrite finished_count_cons. specialize (IH (handle_message g m)).
  destruct (is_finished m) eqn:Hm.
  - rewrite handle_message_finished in * by done. unfold slack in *. simpl in *.
    destruct (is_transcribing g); lia.
  - destruct (handle_message_other_job g m Hm) as (Ht & _). unfold slack in *.
    rewrite Ht in IH. lia.
Qed.

Lemma ui_step_threads g ev :
  threads_started (ui_step g ev) + slack (ui_step g ev)
  ≤ threads_started g + slack g
    + finished_count (match ev with Act Tick => result_queue g | _ => [] end).
Proof.
  destruct ev as [[| | |m]| | | |]; cbn [ui_step step];
    try (unfold finished_count, slack; simpl; lia).
  - unfold start_transcription, slack.
    destruct (is_transcribing g) eqn:Ht; [rewrite Ht; unfold finished_count; simpl; lia|].
    repeat case_bool_decide; simpl; rewrite ?Ht; unfold finished_count; simpl; lia.
  - unfold check_queue. rewrite foldl_handle_threads.
    pose proof (foldl_handle_slack (result_queue g) (set_queue [] g)) as H.
    assert (slack (set_queue [] g) = slack g) as Hs by done.
    assert (threads_started (set_queue [] g) = threads_started g) as Ht by done.
    lia.
  - unfold browse_audio. repeat case_bool_decide; unfold finished_count, slack; simpl; lia.
  - unfold browse_output. case_bool_decide; unfold finished_count, slack; simpl; lia.
Qed.

Lemma ui_run_threads evs g :
  threads_started (ui_run evs g) + slack (ui_run evs g)
  ≤ threads_started g + slack g + finished_count (ui_observed evs g).
Proof.
  revert g. unfold ui_run. induction evs as [|ev evs IH]; intros g; simpl.
  - unfold finished_count. simpl. lia.
  - rewrite finished_count_app. specialize (IH (ui_step g ev)).
    pose proof (ui_step_threads g ev). lia.
Qed.

(** X4: at any moment of any run from the initial window, the number of
    worker threads started so far is at most the number of [Finished]
    messages the pump has handled, plus one while a job is active: a new
    worker is started only after the [Finished] of the one before has been
    handled, so no two workers are ever active together. *)
Theorem X4_one_worker_at_a_time (evs : list ui_event) :
  let g := ui_run evs initial_gui in
  threads_started g
  ≤ finished_count (ui_observed evs initial_gui) + (if is_transcribing g then 1 else 0).
Proof.
  cbv zeta. pose proof (ui_run_threads evs initial_gui) as H.
  unfold slack in H. simpl in H.
  destruct (is_transcribing (ui_run evs initial_gui)); lia.
Qed.

(** ** What the pump shows *)

Lemma ui_step_queue g ev :
  result_queue (ui_step g ev)
  = match ev with
    | Act Tick => []
    | Act (Put m) => result_queue g ++ [m]
    | _ => result_queue g
    end.
Proof.
  destruct ev as [[| | |m]| | | |]; simpl; try done.
  - apply start_transcription_queue.
  - apply check_queue_empties.
  - unfold browse_audio. by repeat case_bool_decide.
  - unfold browse_output. by case_bool_decide.
Qed.

Lemma ui_observed_then_pending evs g :
  ui_observed evs g ++ result_queue (ui_run evs g) = result_queue g ++ ui_puts evs.
Proof.
  revert g. unfold ui_run. induction evs as [|ev evs IH]; intros g; simpl.
  - by rewrite app_nil_r.
  - rewrite <- app_assoc, IH, ui_step_queue.
    destruct ev as [[| | |m]| | | |]; simpl; try done. by rewrite <- app_assoc.
Qed.

Lemma ui_observed_app evs1 evs2 g :
  ui_observed (evs1 ++ evs2) g = ui_observed evs1 g ++ ui_observed evs2 (ui_run evs1 g).
Proof.
  revert g. induction evs1 as [|ev evs1 IH]; intros g; [done|].
  simpl. rewrite IH. by rewrite app_assoc.
Qed.

Lemma ui_observed_all evs g :
  result_queue g = [] → ui_observed (evs ++ [Act Tick]) g = ui_puts evs.
Proof.
  intros Hq. rewrite ui_observed_app. simpl. rewrite app_nil_r.
  by rewrite ui_observed_then_pending, Hq.
Qed.

Lemma log_lines_of_app ms1 ms2 :
  log_lines_of (ms1 ++ ms2) = log_lines_of ms1 +:+ log_lines_of ms2.
Proof.
  induction ms1 as [|[k [d|]] ms1 IH]; simpl.
  - reflexivity.
  - case_bool_decide; [|exact IH]. rewrite IH. symmetry. apply str_app_assoc.
  - exact IH.
Qed.

Lemma dialogs_of_app ms1 ms2 : dialogs_of (ms1 ++ ms2) = dialogs_of ms1 ++ dialogs_of ms2.
Proof.
  induction ms1 as [|[k [d|]] ms1 IH]; simpl.
  - reflexivity.
  - repeat case_bool_decide; by rewrite ?IH.
  - exact IH.
Qed.

Lemma handle_message_shows g m :
  log_text (handle_message g m) = log_text g +:+ log_lines_of [m]
  ∧ dialogs (handle_message g m) = dialogs g ++ dialogs_of [m].
Proof.
  destruct m as [k [d|]]; simpl.
  - repeat case_bool_decide; subst; simpl; try discriminate;
      rewrite ?str_app_empty_r, ?app_nil_r; try done.
    all: try (rewrite <- str_app_assoc; done).
  - case_bool_decide; simpl; by rewrite str_app_empty_r, app_nil_r.
Qed.

Lemma foldl_handle_shows ms g :
  log_text (foldl handle_message g ms) = log_text g +:+ log_lines_of ms
  ∧ dialogs (foldl handle_message g ms) = dialogs g ++ dialogs_of ms.
Proof.
  revert g. induction ms as [|m ms IH]; intros g; simpl foldl.
  - simpl. by rewrite str_app_empty_r, app_nil_r.
  - destruct (IH (handle_message g m)) as [-> ->].
    destruct (handle_message_shows g m) as [-> ->].
    change (m :: ms) with ([m] ++ ms).
    by rewrite log_lines_of_app, dialogs_of_app, str_app_assoc, app_assoc.
Qed.

Lemma ui_step_shows g ev :
  ev ≠ Act Start →
  let seen := match ev with Act Tick => result_queue g | _ => [] end in
  log_text (ui_step g ev) = log_text g +:+ log_lines_of seen
  ∧ dialogs (ui_step g ev) = dialogs g ++ dialogs_of seen.
Proof.
  intros Hev. destruct ev as [[| | |m]| | | |]; simpl;
    rewrite ?str_app_empty_r, ?app_nil_r; try done.
  - apply (foldl_handle_shows (result_queue g) (set_queue [] g)).
  - unfold browse_audio. by repeat case_bool_decide.
  - unfold browse_output. by case_bool_decide.
Qed.

Lemma ui_run_shows evs g :
  Forall (λ ev, ev ≠ Act Start) evs →
  log_text (ui_run evs g) = log_text g +:+ log_lines_of (ui_observed evs g)
  ∧ dialogs (ui_run evs g) = dialogs g ++ dialogs_of (ui_observed evs g).
Proof.
  intros H. revert g. unfold ui_run.
  induction H as [|ev evs Hev _ IH]; intros g; simpl.
  - by rewrite str_app_empty_r, app_nil_r.
  - destruct (IH (ui_step g ev)) as [-> ->].
    destruct (ui_step_shows g ev Hev) as [-> ->].
    by rewrite log_lines_of_app, dialogs_of_app, str_app_assoc, app_assoc.
Qed.

(** X5: along any run in which Start is not pressed, and whatever the
    interleaving of puts, ticks, Stop presses and dialogs, once a last tick
    has emptied the queue the log view holds what it held before followed by
    the texts of the log messages put, one per line and in the order of the
    puts, and the dialogs shown are one error dialog per error message and
    one information dialog per success message, in that order. *)
Theorem X5_pump_shows_logs_and_dialogs_in_order (evs : list ui_event) (g : GUI) :
  result_queue g = [] →
  Forall (λ ev, ev ≠ Act Start) evs →
  let g' := ui_run (evs ++ [Act Tick]) g in
  log_text g' = log_text g +:+ log_lines_of (ui_puts evs)
  ∧ dialogs g' = dialogs g ++ dialogs_of (ui_puts evs)
  ∧ result_queue g' = [].
Proof.
  intros Hq Hev g'.
  destruct (ui_run_shows (evs ++ [Act Tick]) g) as [Hlog Hdlg].
  { apply Forall_app. split; [done|]. by repeat constructor. }
  rewrite ui_observed_all in Hlog, Hdlg by done.
  split; [exact Hlog|]. split; [exact Hdlg|].
  unfold g', ui_run. rewrite foldl_app. simpl. apply check_queue_empties.
Qed.

(** ** A job seen from the window *)

Lemma foldl_handle_active ms g :
  is_transcribing (foldl handle_message g ms)
  = is_transcribing g && bool_decide (finished_count ms = 0).
Proof.
  revert g. induction ms as [|m ms IH]; intros g; simpl foldl.
  - by rewrite andb_true_r.
  - rewrite IH, finished_count_cons. destruct (is_finished m) eqn:Hm.
    + rewrite handle_message_finished by done.
      rewrite (bool_decide_eq_false_2 (1 + finished_count ms = 0)) by lia.
      by rewrite andb_false_r.
    + by destruct (handle_message_other_job g m Hm) as (-> & _).
Qed.

Lemma ui_step_active g ev :
  ev ≠ Act Start →
  is_transcribing (ui_step g ev)
  = is_transcribing g
    && bool_decide (finished_count (match ev with Act Tick => result_queue g | _ => [] end) = 0).
Proof.
  intros Hev.
  assert (Hnil : bool_decide (finished_count [] = 0) = true) by done.
  destruct ev as [[| | |m]| | | |]; cbn [ui_step step];
    rewrite ?Hnil, ?andb_true_r; clear Hnil; try done.
  - apply (foldl_handle_active (result_queue g) (set_queue [] g)).
  - unfold browse_audio. repeat case_bool_decide; reflexivity.
  - unfold browse_output. case_bool_decide; reflexivity.
Qed.

(** Without a Start, a job stays active exactly until a [Finished] has been
    handled. *)
Lemma ui_run_active evs g :
  Forall (λ ev, ev ≠ Act Start) evs →
  is_transcribing (ui_run evs g)
  = is_transcribing g && bool_decide (finished_count (ui_observed evs g) = 0).
Proof.
  intros H. revert g. unfold ui_run.
  induction H as [|ev evs Hev _ IH]; intros g; simpl.
  - by destruct (is_transcribing g).
  - rewrite IH, ui_step_active, finished_count_app by done.
    rewrite <- andb_assoc. f_equal.
    repeat case_bool_decide; try done; lia.
Qed.

Lemma ui_run_controls evs g : controls_follow_job g → controls_follow_job (ui_run evs g).
Proof.
  revert g. unfold ui_run. induction evs as [|ev evs IH]; intros g H; simpl; [done|].
  apply IH. by apply ui_step_controls.
Qed.

Lemma worker_messages_end E st w :
  ∃ pre, messages_of (transcription_worker E st) w = pre ++ [Finished].
Proof. eexists. apply transcription_worker_messages_of. Qed.

(** X6: every job gives the window back.  In a window whose queue is empty
    and whose controls follow the job, whatever the collaborators answer
    and whatever the interleaving of the worker's puts with ticks, Stop
    presses and dialogs (without a further Start), once the pump has emptied
    the queue the job is no longer active, Start is enabled again, Stop is
    disabled, the progress bar has stopped, and no further worker thread
    was started. *)
Theorem X6_every_job_gives_the_window_back (E : Env) (w : Worker)
    (g : GUI) (evs : list ui_event) :
  result_queue g = [] →
  controls_follow_job g →
  Forall (λ ev, ev ≠ Act Start) evs →
  ui_puts evs = messages_of (transcription_worker E (state g)) w →
  let g' := ui_run (evs ++ [Act Tick]) g in
  is_transcribing g' = false
  ∧ start_button g' = true ∧ stop_button g' = false ∧ progress_bar g' = false
  ∧ threads_started g' = threads_started g
  ∧ result_queue g' = [].
Proof.
  intros Hq Hc Hev Hputs g'.
  assert (Hall : Forall (λ ev, ev ≠ Act Start) (evs ++ [Act Tick])).
  { apply Forall_app. split; [done|]. by repeat constructor. }
  assert (Hidle : is_transcribing g' = false).
  { unfold g'. rewrite ui_run_active, ui_observed_all, Hputs by done.
    destruct (worker_messages_end E (state g) w) as [pre ->].
    rewrite finished_count_app, finished_count_cons. simpl.
    rewrite bool_decide_eq_false_2 by lia. apply andb_false_r. }
  destruct (ui_run_controls (evs ++ [Act Tick]) g Hc) as (Hs & Hp & Hb).
  fold g' in Hs, Hp, Hb. rewrite Hidle in *.
  split; [done|]. split; [done|]. split; [done|]. split; [done|]. split.
  - unfold g'. clear -Hall. revert g. unfold ui_run.
    induction Hall as [|ev evs' Hev' _ IH]; intros g; simpl; [done|].
    rewrite IH. destruct ev as [[| | |m]| | | |]; simpl; try done.
    + unfold check_queue. by rewrite foldl_handle_threads.
    + unfold browse_audio. by repeat case_bool_decide.
    + unfold browse_output. by case_bool_decide.
  - unfold g', ui_run. rewrite foldl_app. simpl. apply check_queue_empties.
Qed.

(** ** The messages of a job *)







Lemma quiet_no_dialog ms : Forall quiet ms → dialogs_of ms = [].
Proof.
  induction 1 as [|m ms [d [->| ->]] _ IH]; simpl; [done|exact IH..].
Qed.

Lemma quiet_status d : quiet (Status d).
Proof. exists d. by left. Qed.

Lemma quiet_log d : quiet (Log d).
Proof. exists d. by right. Qed.

Lemma grows_quiet_setup E st : preserves (grows_by quiet) (setup_stage E st).
Proof.
  apply preserves_setup_stage with (P := quiet);
    eauto using grows_by_refl, grows_by_trans, grows_by_put, quiet_status, quiet_log;
    intros; by apply grows_by_same.
Qed.

Lemma grows_quiet_write_segments E out segs i n :
  preserves (grows_by quiet) (write_segments E out segs i n).
Proof.
  apply preserves_write_segments with (P := quiet);
    eauto using grows_by_refl, grows_by_trans, grows_by_put, quiet_log;
    intros; by apply grows_by_same.
Qed.

Lemma write_stage_open_fails E out segs w e :
  open_error E out = Some e → write_stage E out segs w = (Raise e, w).
Proof. intros H. unfold write_stage, open_w. unfold mbind, M_bind. by rewrite H. Qed.

Lemma write_stage_opened E out segs w :
  open_error E out = None →
  write_stage E out segs w =
  match write_segments E out segs 1 0 (with_fs (insert out "") w) with
  | (Val n, w2) =>
      (Val (), if flag_at E CkDone then w2
               else with_emitted (λ q, q ++ completion_messages n out) w2)
  | (Return, w2) => (Return, w2)
  | (Raise e, w2) => (Raise e, w2)
  end.
Proof.
  intros H. unfold write_stage.
  rewrite (bind_val _ _ w _ _ (open_w_ok E out w H)).
  unfold mbind, M_bind.
  destruct (write_segments E out segs 1 0 (with_fs (insert out "") w)) as [[n| |e] w2];
    [|done..].
  unfold is_set, mret, M_ret. destruct (flag_at E CkDone); [done|].
  unfold put, modify, with_emitted, completion_messages. simpl.
  by rewrite <- !app_assoc.
Qed.

(** The stage that writes: its messages are log lines, followed by the three
    messages of the completion when the stage completes with the flag
    clear. *)
Lemma write_stage_messages E out segs w :
  ∃ ms, Forall quiet ms
    ∧ (messages_of (write_stage E out segs) w = ms
       ∨ (write_stage E out segs w).1 = Val ()
         ∧ ∃ n, messages_of (write_stage E out segs) w = ms ++ completion_messages n out).
Proof.
  destruct (open_error E out) as [e|] eqn:Hopen.
  { exists []. split; [constructor|]. left. apply messages_of_eq.
    rewrite (write_stage_open_fails E out segs w e Hopen). simpl. by rewrite app_nil_r. }
  set (w1 := with_fs (insert out "") w).
  destruct (grows_by_messages_of quiet (write_segments E out segs 1 0) w1
              (grows_quiet_write_segments E out segs 1 0 w1)) as [Hem Hq].
  exists (messages_of (write_segments E out segs 1 0) w1). split; [exact Hq|].
  rewrite (write_stage_opened E out segs w Hopen). fold w1.
  unfold messages_of at 1 3. rewrite (write_stage_opened E out segs w Hopen). fold w1.
  destruct (write_segments E out segs 1 0 w1) as [[n| |e] w2] eqn:Hw; simpl in *.
  - destruct (flag_at E CkDone); simpl.
    + left. by rewrite Hem, drop_app_length.
    + right. split; [done|]. exists n.
      rewrite Hem. rewrite <- !app_assoc. by rewrite drop_app_length.
  - left. by rewrite Hem, drop_app_length.
  - left. by rewrite Hem, drop_app_length.
Qed.

Lemma dialogs_of_completion n out :
  dialogs_of (completion_messages n out)
  = [showinfo "Success" "Transcription completed successfully!"].
Proof. reflexivity. Qed.

Lemma bind_not_val {A B} (m : M A) (f : A → M B) w :
  (∀ a, (m w).1 ≠ Val a) →
  (m ≫= f) w = (match (m w).1 with Raise e => Raise e | _ => Return end, (m w).2).
Proof.
  intros H. unfold mbind, M_bind. destruct (m w) as [[a| |e] w']; simpl in *; [|done..].
  by destruct (H a).
Qed.

(** The messages of the body: those of the stages before the file is
    opened, then those of the stage that writes when it is reached. *)
Lemma worker_body_cases E st w :
  (∃ segs, (setup_stage E st w).1 = Val segs
     ∧ worker_body E st w = write_stage E (output_file st) segs (setup_stage E st w).2
     ∧ messages_of (worker_body E st) w
       = messages_of (setup_stage E st) w
         ++ messages_of (write_stage E (output_file st) segs) (setup_stage E st w).2)
  ∨ ((∀ segs, (setup_stage E st w).1 ≠ Val segs)
     ∧ (∀ x, (worker_body E st w).1 ≠ Val x)
     ∧ (worker_body E st w).2 = (setup_stage E st w).2
     ∧ messages_of (worker_body E st) w = messages_of (setup_stage E st) w).
Proof.
  destruct (setup_stage E st w).1 as [segs| |e] eqn:Hs.
  - left. exists segs. split; [done|].
    assert (Hb : worker_body E st w
                 = write_stage E (output_file st) segs (setup_stage E st w).2)
      by (by apply worker_body_after_setup).
    split; [exact Hb|]. apply messages_of_eq. rewrite Hb.
    destruct (write_stage_messages E (output_file st) segs (setup_stage E st w).2)
      as (ms & _ & _).
    assert (Hg : grows_by (λ _, True) (setup_stage E st w).2
                   (write_stage E (output_file st) segs (setup_stage E st w).2).2).
    { apply preserves_write_stage with (P := λ _, True);
        eauto using grows_by_refl, grows_by_trans, grows_by_put;
        intros; by apply grows_by_same. }
    destruct (grows_by_messages_of _ _ _ Hg) as [-> _].
    by rewrite setup_stage_messages, app_assoc.
  - right. assert (Hn : ∀ segs, (setup_stage E st w).1 ≠ Val segs) by (rewrite Hs; done).
    unfold worker_body. rewrite bind_not_val by (rewrite Hs; done). rewrite Hs. simpl.
    repeat split; try done. unfold messages_of.
    rewrite bind_not_val by (rewrite Hs; done). done.
  - right. assert (Hn : ∀ segs, (setup_stage E st w).1 ≠ Val segs) by (rewrite Hs; done).
    unfold worker_body. rewrite bind_not_val by (rewrite Hs; done). rewrite Hs. simpl.
    repeat split; try done. unfold messages_of.
    rewrite bind_not_val by (rewrite Hs; done). done.
Qed.

Lemma setup_no_dialog E st w : dialogs_of (messages_of (setup_stage E st) w) = [].
Proof.
  apply quiet_no_dialog, (grows_by_messages_of quiet), grows_quiet_setup.
Qed.

Lemma cleanup_no_dialog E w : dialogs_of (cleanup_log E w) = [].
Proof. unfold cleanup_log. by repeat case_match. Qed.

(** The dialogs of a job. *)
Lemma job_dialogs E st w :
  let r := worker_body E st (with_temp_audio_path None w) in
  dialogs_of (messages_of (transcription_worker E st) w)
  = match r.1 with
    | Raise e =>
        if is_Exception (exn_cls e)
        then [showerror "Error" ("An error occurred: " +:+ exn_str e)]
        else []
    | _ => []
    end
  ∨ (r.1 = Val ()
     ∧ dialogs_of (messages_of (transcription_worker E st) w)
       = [showinfo "Success" "Transcription completed successfully!"]).
Proof.
  intros r. rewrite transcription_worker_messages_of. fold r.
  rewrite !dialogs_of_app, cleanup_no_dialog. simpl. rewrite !app_nil_r.
  assert (Hrep : dialogs_of match r.1 with Raise e => error_report e | _ => [] end
                 = match r.1 with
                   | Raise e =>
                       if is_Exception (exn_cls e)
                       then [showerror "Error" ("An error occurred: " +:+ exn_str e)]
                       else []
                   | _ => []
                   end).
  { destruct r.1 as [| |e]; [done..|]. unfold error_report.
    by destruct (is_Exception (exn_cls e)). }
  destruct (worker_body_cases E st (with_temp_audio_path None w))
    as [(segs & Hs & Hb & Hm)|(Hs & Hv & Hw & Hm)].
  - rewrite Hm, dialogs_of_app, setup_no_dialog. simpl.
    destruct (write_stage_messages E (output_file st) segs
                (setup_stage E st (with_temp_audio_path None w)).2)
      as (ms & Hq & [Hms|(Hval & n & Hms)]).
    + left. rewrite Hms, (quiet_no_dialog ms Hq). simpl. exact Hrep.
    + right. fold r in Hb. rewrite <- Hb in Hval. split; [exact Hval|].
      rewrite Hms, dialogs_of_app, (quiet_no_dialog ms Hq), dialogs_of_completion.
      rewrite Hval. reflexivity.
  - left. rewrite Hm, setup_no_dialog. simpl. exact Hrep.
Qed.

(** X8: a job opens at most one dialog.  When an [Exception] ended the body
    of the worker it is the error dialog with the text of that exception;
    when an exception that is no [Exception] ended it there is none;
    otherwise it is the success dialog or none (a job that was stopped);
    it never shows both, and a job that shows the success dialog has no
    [Error] message. *)
Theorem X8_at_most_one_dialog_per_job (E : Env) (st : AppState) (w : Worker) :
  let r := worker_body E st (with_temp_audio_path None w) in
  let ds := dialogs_of (messages_of (transcription_worker E st) w) in
  length ds ≤ 1
  ∧ (∀ e, r.1 = Raise e → is_Exception (exn_cls e) = true →
     ds = [showerror "Error" ("An error occurred: " +:+ exn_str e)])
  ∧ (∀ e, r.1 = Raise e → is_Exception (exn_cls e) = false → ds = [])
  ∧ ((∀ e, r.1 ≠ Raise e) →
     ds = [] ∨ ds = [showinfo "Success" "Transcription completed successfully!"])
  ∧ (ds = [showinfo "Success" "Transcription completed successfully!"] →
     Forall (λ m, is_error m = false) (messages_of (transcription_worker E st) w)).
Proof.
  intros r ds. destruct (job_dialogs E st w) as [H|[Hval H]]; fold r ds in H.
  - split; [rewrite H; destruct r.1 as [| |e]; [| |destruct (is_Exception (exn_cls e))];
            simpl; lia|].
    split; [|split; [|split]].
    + intros e He Hcls. by rewrite H, He, Hcls.
    + intros e He Hcls. by rewrite H, He, Hcls.
    + intros Hne. left. rewrite H. destruct r.1 as [| |e] eqn:Hr; try done.
      by destruct (Hne e).
    + intros Hd. rewrite H in Hd. destruct r.1 as [| |e]; [done..|].
      by destruct (is_Exception (exn_cls e)).
  - split; [rewrite H; simpl; lia|]. split; [|split; [|split]].
    + intros e He. unfold r in He. rewrite He in Hval. discriminate.
    + intros e He. unfold r in He. rewrite He in Hval. discriminate.
    + intros _. by right.
    + intros _. apply worker_no_exception_no_error. intros e He.
      rewrite He in Hval. discriminate.
Qed.

(** ** A job that is stopped before the output file is opened *)

(** The extraction touches no file but the temporary one, leaves the
    variable [temp_audio_path] alone, and returns the temporary name. *)
Lemma extract_audio_frame E video w p :
  (∀ name, new_temp_name E = inl name → name ≠ p) →
  let r := extract_audio_from_video E video w in
  fs r.2 !! p = fs w !! p
  ∧ temp_audio_path r.2 = temp_audio_path w
  ∧ (∀ a, r.1 = Val a → a ≠ p).
Proof.
  intros Hname. cbv zeta.
  unfold extract_audio_from_video, NamedTemporaryFile.
  unfold try_except, except_Exception, write_audiofile, unlink, exists_, get, put, modify,
    fail_if, lift, raise.
  unfold mbind, M_bind, mret, M_ret.
  destruct (new_temp_name E) as [name|e0] eqn:Hn; simpl; [|done].
  specialize (Hname name eq_refl).
  assert (Hsome : ∀ (m : gmap string string) x,
             bool_decide (is_Some (<[name:=x]> m !! name)) = true).
  { intros m x. apply bool_decide_eq_true_2. rewrite lookup_insert_eq. by eexists. }
  destruct (open_clip E video) as [[[[content [e1|]]|]]|e1]; simpl;
    try destruct (is_Exception (exn_cls e1)); simpl;
    rewrite ?Hsome; simpl;
    destruct (unlink_error E name) as [e2|]; simpl; rewrite ?Hsome; simpl;
    rewrite ?lookup_delete_ne, ?lookup_insert_ne by done;
    repeat split; try done; by intros a [= <-].
Qed.

Lemma audio_stage_frame E input w p :
  (∀ name, new_temp_name E = inl name → name ≠ p) →
  temp_audio_path w ≠ Some p →
  fs (audio_stage E input w).2 !! p = fs w !! p
  ∧ temp_audio_path (audio_stage E input w).2 ≠ Some p.
Proof.
  intros Hname Htemp. unfold audio_stage.
  destruct (is_video_file input); [|done].
  unfold return_if_set, is_set. unfold mbind, M_bind, mret, M_ret.
  destruct (flag_at E CkVideo); simpl; [done|].
  destruct (extract_audio_frame E input w p Hname) as (Hfs & Ht & Ha).
  destruct (extract_audio_from_video E input w) as [[a| |e] wx]; simpl in *.
  - split; [done|]. intros [= ->]. by apply (Ha p).
  - split; [done|]. by rewrite Ht.
  - split; [done|]. by rewrite Ht.
Qed.

Lemma transcribe_stage_frame E st a :
  preserves (λ w w', fs w' = fs w ∧ temp_audio_path w' = temp_audio_path w)
    (transcribe_stage E st a).
Proof.
  apply preserves_transcribe_stage with (P := λ _, True); try done.
  intros w1 w2 w3 [-> ->] [-> ->]. done.
Qed.

Lemma bind_never_val {A B} (m : M A) (f : A → M B) w :
  (∀ a w' x, (f a w').1 ≠ Val x) → ∀ x, ((m ≫= f) w).1 ≠ Val x.
Proof.
  intros H x. unfold mbind, M_bind. destruct (m w) as [[a| |e] w']; simpl; [|done..].
  apply H.
Qed.

(** With the flag set at line 236, the stages before the file is opened end
    with a [return] or an exception, never with the segments. *)
Lemma transcribe_stage_stopped E st a w segs :
  flag_at E CkTranscribed = true → (transcribe_stage E st a w).1 ≠ Val segs.
Proof.
  intros Hflag. unfold transcribe_stage.
  do 7 (apply bind_never_val; intros ? ? ?).
  apply bind_never_val. intros [segments info] wt xt.
  unfold return_if_set, is_set. unfold mbind, M_bind, mret, M_ret. rewrite Hflag. done.
Qed.

Lemma setup_stage_stopped E st w segs :
  flag_at E CkTranscribed = true → (setup_stage E st w).1 ≠ Val segs.
Proof.
  intros Hflag. unfold setup_stage. apply bind_never_val. intros a w' x.
  by apply transcribe_stage_stopped.
Qed.

Lemma setup_stage_frame E st w p :
  (∀ name, new_temp_name E = inl name → name ≠ p) →
  temp_audio_path w ≠ Some p →
  fs (setup_stage E st w).2 !! p = fs w !! p
  ∧ temp_audio_path (setup_stage E st w).2 ≠ Some p.
Proof.
  intros Hname Htemp.
  destruct (audio_stage_frame E (audio_file st) w p Hname Htemp) as [Hfs Ht].
  unfold setup_stage. unfold mbind, M_bind.
  destruct (audio_stage E (audio_file st) w) as [[a| |e] wa]; simpl in *; [|done..].
  destruct (transcribe_stage_frame E st a wa) as [-> ->]. done.
Qed.

Lemma quiet_not_success ms : Forall quiet ms → Forall (λ m, is_success m = false) ms.
Proof. intros H. eapply Forall_impl; [exact H|]. by intros m [d [->| ->]]. Qed.

(** X9: when the flag is set by the time the transcription has been started
    (line 236, so also when it was set at any earlier check and stays set),
    the worker never opens the output file: what was at the output path
    before the job is there after it, the stages before the loop do not
    hand over any segment, and the job reports no success. *)
Theorem X9_stop_before_writing_keeps_output (E : Env) (st : AppState) (w : Worker) :
  flag_at E CkTranscribed = true →
  (∀ name, new_temp_name E = inl name → name ≠ output_file st) →
  let w0 := with_temp_audio_path None w in
  fs (transcription_worker E st w).2 !! output_file st = fs w !! output_file st
  ∧ (∀ segs, (setup_stage E st w0).1 ≠ Val segs)
  ∧ (∀ x, (worker_body E st w0).1 ≠ Val x)
  ∧ Forall (λ m, is_success m = false) (messages_of (transcription_worker E st) w).
Proof.
  intros Hflag Hname w0.
  destruct (worker_body_cases E st w0) as [(segs & Hs & _)|(Hs & Hv & Hw & Hm)].
  { by destruct (setup_stage_stopped E st w0 segs Hflag). }
  destruct (setup_stage_frame E st w0 (output_file st) Hname) as [Hfs Ht]; [done|].
  split; [|split; [exact Hs|split; [exact Hv|]]].
  - rewrite transcription_worker_eq. fold w0. simpl.
    rewrite fs_after_cleanup_other by (by rewrite after_body_temp, Hw).
    by rewrite after_body_fs, Hw, Hfs.
  - rewrite transcription_worker_messages_of. fold w0.
    repeat apply Forall_app_2.
    + rewrite Hm. apply quiet_not_success, (grows_by_messages_of quiet), grows_quiet_setup.
    + destruct (worker_body E st w0).1 as [| |e]; [constructor..|].
      unfold error_report. destruct (is_Exception (exn_cls e)); repeat constructor.
    + unfold cleanup_log. repeat case_match; repeat constructor.
    + repeat constructor.
Qed.

(** ** A job that runs to the end *)

(** From the audio path on: the model is on disk and loads, the
    transcription yields the segments of [l], nothing stops or fails. *)
Lemma transcribe_and_write E st a w path l info :
  AVAILABLE_MODELS !! model_size st = Some path →
  load_error E (model_dirs w) path = None →
  run_transcribe E path a (language_hint st) = inl (stream_of l, info) →
  (∀ ck, flag_at E ck = false) →
  open_error E (output_file st) = None →
  (∀ i, write_error E i = None) →
  (transcribe_stage E st a ≫= write_stage E (output_file st)) w
  = (Val (),
     with_emitted
       (λ q, q ++ transcription_messages st info
               ++ completion_messages (length l) (output_file st))
       (with_fs (insert (output_file st) (lines_of l)) w)).
Proof.
  intros Hpath Hload Hrun Hflag Hopen Hwrite.
  assert (Hsetup : transcribe_stage E st a w
            = (Val (stream_of l),
               with_emitted (λ q, q ++ transcription_messages st info) w)).
  { unfold transcribe_stage, load_model, try_except, getitem, WhisperModel,
      return_if_set, is_set, put, modify, get, fail_if, lift.
    fold (language_hint st).
    unfold mbind, M_bind, mret, M_ret. rewrite !Hflag, Hpath. simpl.
    rewrite Hload. simpl. rewrite Hrun. simpl.
    unfold with_emitted, transcription_messages. simpl.
    by rewrite <- !app_assoc. }
  rewrite (bind_val _ _ _ _ _ Hsetup).
  rewrite write_stage_completed by (try done; intros i _; by rewrite Hflag, Hwrite).
  rewrite Hflag. unfold with_emitted, with_fs. simpl. by rewrite <- !app_assoc.
Qed.

(** X10: a job on an audio file whose model is on disk and loads, whose
    transcription yields the segments of [l], and in which nothing stops or
    fails: the messages are the two of the model stage, the four of the
    transcription, the count of segments (the length of [l]), the output
    path, [Success] and [Finished], in that order; the output file holds
    exactly the lines written for the segments of [l], which are as many
    lines as segments when no segment text has a line feed inside; no other
    file, no model directory and no temporary file is touched. *)
Theorem X10_audio_job_end_to_end (E : Env) (st : AppState) (w : Worker)
    (path : string) (l : list Segment) (info : TranscriptionInfo) :
  is_video_file (audio_file st) = false →
  AVAILABLE_MODELS !! model_size st = Some path →
  load_error E (model_dirs w) path = None →
  run_transcribe E path (audio_file st) (language_hint st) = inl (stream_of l, info) →
  (∀ ck, flag_at E ck = false) →
  open_error E (output_file st) = None →
  (∀ i, write_error E i = None) →
  let final := (transcription_worker E st w).2 in
  messages_of (transcription_worker E st) w
  = transcription_messages st info
    ++ [ Log ("Transcription completed! Processed segments: " +:+ pretty (length l));
         Log ("Result saved to: " +:+ output_file st);
         Success "Transcription completed successfully!";
         Finished ]
  ∧ fs final = <[output_file st := lines_of l]> (fs w)
  ∧ model_dirs final = model_dirs w
  ∧ (Forall (λ s, has_newline (Py.strip (text s)) = false) l →
     count_lines (lines_of l) = length l).
Proof.
  intros Hvideo Hpath Hload Hrun Hflag Hopen Hwrite final.
  assert (Hbody : worker_body E st (with_temp_audio_path None w)
            = (Val (),
               with_emitted
                 (λ q, q ++ transcription_messages st info
                         ++ completion_messages (length l) (output_file st))
                 (with_fs (insert (output_file st) (lines_of l))
                    (with_temp_audio_path None w)))).
  { rewrite (worker_body_after_audio E st _ (audio_file st) (with_temp_audio_path None w)).
    - by apply (transcribe_and_write E st (audio_file st) _ path).
    - unfold audio_stage. by rewrite Hvideo. }
  split; [|split; [|split]].
  - apply messages_of_eq. rewrite transcription_worker_eq, Hbody. simpl.
    unfold completion_messages. by rewrite <- !app_assoc.
  - unfold final. rewrite transcription_worker_eq, Hbody. reflexivity.
  - unfold final. rewrite transcription_worker_eq, Hbody. reflexivity.
  - apply count_lines_lines_of.
Qed.

(** ** A job on a video *)

Lemma extract_audio_success E video w name c a :
  new_temp_name E = inl name →
  open_clip E video = inl c → audio c = Some a → demux_error a = None →
  extract_audio_from_video E video w
  = (Val name,
     {| fs := <[name := demuxed a]> (fs w);
        model_dirs := model_dirs w;
        emitted := emitted w
          ++ [ Status "Extracting audio from video...";
               Log ("Extracting audio from video: " +:+ Py.basename video);
               Log "Audio extracted successfully" ];
        temp_audio_path := temp_audio_path w |}).
Proof.
  intros Hname Hclip Haudio Hdemux.
  unfold extract_audio_from_video, NamedTemporaryFile.
  unfold try_except, write_audiofile, put, modify, fail_if, lift, raise.
  unfold mbind, M_bind, mret, M_ret. rewrite Hname. simpl. rewrite Hclip. simpl.
  rewrite Haudio, Hdemux. simpl. unfold with_emitted, with_fs. simpl.
  by rewrite insert_insert_eq, <- !app_assoc.
Qed.

(** X11: a job on a video whose audio track is extracted, whose model is on
    disk and loads, whose transcription (of the temporary file) yields the
    segments of [l], and in which nothing stops or fails: the messages are
    the three of the extraction, those of the model and transcription
    stages, the count of segments, the output path, [Success], the line of
    the cleanup and [Finished]; the output file holds the lines of [l] and
    the temporary file is gone. *)
Theorem X11_video_job_end_to_end (E : Env) (st : AppState) (w : Worker)
    (name path : string) (c : clip) (a : audio_track)
    (l : list Segment) (info : TranscriptionInfo) :
  is_video_file (audio_file st) = true →
  new_temp_name E = inl name → name ≠ "" → name ≠ output_file st →
  open_clip E (audio_file st) = inl c → audio c = Some a → demux_error a = None →
  unlink_error E name = None →
  AVAILABLE_MODELS !! model_size st = Some path →
  load_error E (model_dirs w) path = None →
  run_transcribe E path name (language_hint st) = inl (stream_of l, info) →
  (∀ ck, flag_at E ck = false) →
  open_error E (output_file st) = None →
  (∀ i, write_error E i = None) →
  let final := (transcription_worker E st w).2 in
  messages_of (transcription_worker E st) w
  = [ Status "Extracting audio from video...";
      Log ("Extracting audio from video: " +:+ Py.basename (audio_file st));
      Log "Audio extracted successfully" ]
    ++ transcription_messages st info
    ++ completion_messages (length l) (output_file st)
    ++ [ Log "Temporary audio file cleaned up"; Finished ]
  ∧ fs final !! output_file st = Some (lines_of l)
  ∧ fs final !! name = None
  ∧ model_dirs final = model_dirs w.
Proof.
  intros Hvideo Hname Hne Hout Hclip Haudio Hdemux Hunlink Hpath Hload Hrun Hflag
    Hopen Hwrite final.
  set (w0 := with_temp_audio_path None w).
  pose proof (extract_audio_success E (audio_file st) w0 name c a Hname Hclip Haudio Hdemux)
    as Hex.
  set (wx := {| fs := <[name := demuxed a]> (fs w0); model_dirs := model_dirs w0;
                emitted := emitted w0
                  ++ [ Status "Extracting audio from video...";
                       Log ("Extracting audio from video: " +:+ Py.basename (audio_file st));
                       Log "Audio extracted successfully" ];
                temp_audio_path := temp_audio_path w0 |}) in Hex.
  assert (Ha : audio_stage E (audio_file st) w0
               = (Val name, with_temp_audio_path (Some name) wx)).
  { unfold audio_stage. rewrite Hvideo. unfold return_if_set, is_set.
    unfold mbind, M_bind, mret, M_ret. rewrite Hflag. simpl. by rewrite Hex. }
  assert (Hbody : worker_body E st w0
            = (Val (),
               with_emitted
                 (λ q, q ++ transcription_messages st info
                         ++ completion_messages (length l) (output_file st))
                 (with_fs (insert (output_file st) (lines_of l))
                    (with_temp_audio_path (Some name) wx)))).
  { rewrite (worker_body_after_audio E st _ _ _ Ha).
    by apply (transcribe_and_write E st name _ path). }
  assert (Hfinal : final
            = with_emitted (λ q, q ++ [Finished])
                (with_emitted (λ q, q ++ [Log "Temporary audio file cleaned up"])
                   (with_fs (delete name)
                      (with_emitted
                         (λ q, q ++ transcription_messages st info
                                 ++ completion_messages (length l) (output_file st))
                         (with_fs (insert (output_file st) (lines_of l))
                            (with_temp_audio_path (Some name) wx)))))).
  { unfold final. rewrite transcription_worker_eq. fold w0. rewrite Hbody.
    unfold after_body, after_cleanup. simpl. rewrite Hunlink.
    rewrite (bool_decide_eq_true_2 (name ≠ "")) by done.
    rewrite bool_decide_eq_true_2; [done|].
    rewrite lookup_insert_ne by done. rewrite lookup_insert_eq. by eexists. }
  split; [|split; [|split]].
  - apply messages_of_eq. fold final. rewrite Hfinal. simpl.
    by rewrite <- !app_assoc.
  - rewrite Hfinal. simpl. rewrite lookup_delete_ne by done. apply lookup_insert_eq.
  - rewrite Hfinal. simpl. apply lookup_delete_eq.
  - rewrite Hfinal. reflexivity.
Qed.

(** ** A failure in the middle of the stream *)

Lemma write_stage_fails_midway E out l tail e w :
  open_error E out = None →
  (∀ i, 1 ≤ i ≤ length l → flag_at E (CkSegment i) = false ∧ write_error E i = None) →
  fails_after E (length l) e tail →
  write_stage E out (stream_app l tail) w
  = (Raise e, with_fs (insert out (lines_of l)) w).
Proof.
  intros Hopen Hok Htail. rewrite write_stage_opened by done.
  rewrite write_segments_prefix by (intros j Hj; apply Hok; lia).
  assert (Hfs : with_fs (alter (λ c, c +:+ lines_of l) out) (with_fs (insert out "") w)
                = with_fs (insert out (lines_of l)) w).
  { rewrite with_fs_compose. apply with_fs_ext. intros m. simpl.
    by rewrite alter_insert_eq. }
  rewrite Hfs. destruct Htail as [->|(s & rest & -> & Hflag & Hwrite)]; simpl.
  - reflexivity.
  - unfold is_set, f_write, fail_if. unfold mbind, M_bind, mret, M_ret.
    by rewrite Hflag, Hwrite.
Qed.

Lemma cleanup_log_quiet E w : Forall quiet (cleanup_log E w).
Proof.
  unfold cleanup_log. repeat case_match; try constructor; try apply quiet_log; constructor.
Qed.

(** X12: when a job has reached the loop and the stream fails after the
    segments of [l] have been written (the generator raises, or the write of
    the next segment raises), the lines of [l] stay in the output file, the
    failure, when it is an [Exception], is reported by one [Error] with its
    log line after the messages of the earlier stages (an exception that is
    no [Exception] is not reported), and the job reports no success. *)
Theorem X12_failure_mid_stream_keeps_written_lines (E : Env) (st : AppState) (w : Worker)
    (l : list Segment) (tail : seg_stream) (e : exn) :
  let w0 := with_temp_audio_path None w in
  let out := output_file st in
  let w1 := (setup_stage E st w0).2 in
  (setup_stage E st w0).1 = Val (stream_app l tail) →
  open_error E out = None →
  (∀ i, 1 ≤ i ≤ length l → flag_at E (CkSegment i) = false ∧ write_error E i = None) →
  (tail = SFail e
   ∨ ∃ s rest, tail = SSeg s rest
       ∧ flag_at E (CkSegment (S (length l))) = false
       ∧ write_error E (S (length l)) = Some e) →
  temp_audio_path w1 ≠ Some out →
  fs (transcription_worker E st w).2 !! out = Some (lines_of l)
  ∧ (∃ cleanup,
       messages_of (transcription_worker E st) w
       = messages_of (setup_stage E st) w0
         ++ (if is_Exception (exn_cls e)
             then [ Error ("An error occurred: " +:+ exn_str e);
                    Log ("ERROR: An error occurred: " +:+ exn_str e) ]
             else [])
         ++ cleanup ++ [Finished]
       ∧ Forall quiet cleanup)
  ∧ Forall (λ m, is_success m = false) (messages_of (transcription_worker E st) w).
Proof.
  intros w0 out w1 Hsetup Hopen Hok Htail Htemp.
  assert (Hbody : worker_body E st w0 = (Raise e, with_fs (insert out (lines_of l)) w1)).
  { rewrite (worker_body_after_setup E st w0 _ Hsetup).
    by apply write_stage_fails_midway. }
  assert (Hm : messages_of (worker_body E st) w0 = messages_of (setup_stage E st) w0).
  { apply messages_of_eq. rewrite Hbody. simpl. unfold w1.
    apply (setup_stage_messages E st w0). }
  assert (Hms : messages_of (transcription_worker E st) w
            = messages_of (setup_stage E st) w0
              ++ error_report e
              ++ cleanup_log E (after_body (worker_body E st w0)) ++ [Finished]).
  { rewrite transcription_worker_messages_of. fold w0. rewrite Hm, Hbody. simpl.
    by rewrite <- !app_assoc. }
  split; [|split].
  - rewrite transcription_worker_eq. fold w0. rewrite Hbody. simpl.
    rewrite fs_after_cleanup_other by done. simpl. apply lookup_insert_eq.
  - eexists. split; [exact Hms|]. apply cleanup_log_quiet.
  - rewrite Hms. repeat apply Forall_app_2.
    + apply quiet_not_success, (grows_by_messages_of quiet), grows_quiet_setup.
    + unfold error_report. destruct (is_Exception (exn_cls e)); repeat constructor.
    + apply quiet_not_success, cleanup_log_quiet.
    + repeat constructor.
Qed.

(** ** Resolution of a known identifier *)

(** X13: for an identifier of the table whose directory loads, the
    resolution returns that directory and does nothing else: no message, no
    download, no change on disk.  When the load fails with an exception that
    is neither a [KeyError] nor an [HFValidationError], that exception ends
    the resolution, again with no message and no download. *)
Theorem X13_known_model_loads_or_fails (E : Env) (model_size path : string) (w : Worker) :
  AVAILABLE_MODELS !! model_size = Some path →
  (load_error E (model_dirs w) path = None →
     load_model E model_size w = (Val path, w))
  ∧ (∀ e, load_error E (model_dirs w) path = Some e →
       exn_cls e ≠ KeyError → exn_cls e ≠ HFValidationError →
       load_model E model_size w = (Raise e, w)).
Proof.
  intros Hpath. split.
  - intros Hload. unfold load_model, try_except, getitem. rewrite Hpath.
    unfold mbind at 1. unfold M_bind at 1. unfold mret at 1. unfold M_ret at 1.
    by rewrite WhisperModel_outcome, Hload.
  - intros e Hload Hk Hv. unfold load_model, try_except, getitem. rewrite Hpath.
    unfold mbind at 1. unfold M_bind at 1. unfold mret at 1. unfold M_ret at 1.
    rewrite WhisperModel_outcome, Hload. by destruct (exn_cls e).
Qed.

Lemma known_model_has_repo model_size path :
  AVAILABLE_MODELS !! model_size = Some path →
  ∃ repo, HF_MODEL_MAPPING !! model_size = Some repo.
Proof.
  intros H. apply (elem_of_dom HF_MODEL_MAPPING). rewrite <- tables_same_keys.
  apply elem_of_dom. by eexists.
Qed.

(** X14: for an identifier of the table whose directory is refused as a
    repository identifier, the resolution logs the download, fetches the
    repository the second table gives for the identifier (there is always
    one) into the directory of the first table, and, when the fetch
    succeeds, logs it and loads the directory again, now on disk; a failing
    fetch ends the resolution with its exception after the first log line
    only. *)
Theorem X14_missing_model_is_downloaded (E : Env) (model_size path : string)
    (e : exn) (w : Worker) :
  AVAILABLE_MODELS !! model_size = Some path →
  load_error E (model_dirs w) path = Some e →
  exn_cls e = HFValidationError →
  ∃ repo,
    HF_MODEL_MAPPING !! model_size = Some repo
    ∧ match download_error E repo path with
      | Some e' =>
          (load_model E model_size w).1 = Raise e'
          ∧ messages_of (load_model E model_size) w
            = [Log ("Model '" +:+ model_size +:+ "' not found, downloading...")]
          ∧ model_dirs (load_model E model_size w).2 = model_dirs w
      | None =>
          (load_model E model_size w).1
          = match load_error E ({[path]} ∪ model_dirs w) path with
            | Some e'' => Raise e''
            | None => Val path
            end
          ∧ messages_of (load_model E model_size) w
            = [ Log ("Model '" +:+ model_size +:+ "' not found, downloading...");
                Log ("Model '" +:+ model_size +:+ "' downloaded successfully") ]
          ∧ model_dirs (load_model E model_size w).2 = {[path]} ∪ model_dirs w
      end.
Proof.
  intros Hpath Hload Hcls.
  destruct (known_model_has_repo model_size path Hpath) as [repo Hrepo].
  exists repo. split; [exact Hrepo|].
  unfold messages_of. rewrite (load_model_downloads E model_size path repo e w) by done.
  unfold download_model, put, modify, fail_if. unfold mbind, M_bind, mret, M_ret.
  simpl. destruct (download_error E repo path) as [e'|]; simpl.
  - by rewrite drop_app_length.
  - rewrite WhisperModel_outcome. simpl.
    rewrite <- app_assoc, drop_app_length. done.
Qed.

(** ** Classification: letter case and folders *)

Lemma eqb_lower_char_sep a c :
  c = "/"%char ∨ c = "."%char → Ascii.eqb (Py.lower_char a) c = Ascii.eqb a c.
Proof. intros [->| ->]; by destruct a as [[] [] [] [] [] [] [] []]. Qed.

Lemma lower_char_idem a : Py.lower_char (Py.lower_char a) = Py.lower_char a.
Proof. by destruct a as [[] [] [] [] [] [] [] []]. Qed.

Lemma lower_idem s : Py.lower (Py.lower s) = Py.lower s.
Proof. induction s as [|a s IH]; simpl; [done|]. by rewrite lower_char_idem, IH. Qed.

Lemma rfind_from_lower c s i last :
  c = "/"%char ∨ c = "."%char →
  Py.rfind_from c (Py.lower s) i last = Py.rfind_from c s i last.
Proof.
  intros Hc. revert i last. induction s as [|a s IH]; intros i last; simpl; [done|].
  by rewrite eqb_lower_char_sep, IH.
Qed.

Lemma has_other_lower s : Py.has_other "." (Py.lower s) = Py.has_other "." s.
Proof.
  induction s as [|a s IH]; simpl; [done|].
  rewrite eqb_lower_char_sep by (by right). by rewrite IH.
Qed.

Lemma lower_take n s : Py.lower (Py.take n s) = Py.take n (Py.lower s).
Proof. revert s. induction n as [|n IH]; intros [|a s]; simpl; try done. by rewrite IH. Qed.

Lemma lower_drop n s : Py.lower (Py.drop n s) = Py.drop n (Py.lower s).
Proof. revert s. induction n as [|n IH]; intros [|a s]; simpl; try done. Qed.

Lemma splitext_lower p :
  Py.splitext (Py.lower p) = (Py.lower (Py.splitext p).1, Py.lower (Py.splitext p).2).
Proof.
  unfold Py.splitext, Py._splitext, Py.rfind, Py.slice.
  rewrite !rfind_from_lower by auto.
  rewrite <- lower_drop, <- lower_take, has_other_lower.
  rewrite <- lower_take, <- lower_drop.
  by repeat case_match.
Qed.

Lemma is_video_file_lower p : is_video_file (Py.lower p) = is_video_file p.
Proof. unfold is_video_file. rewrite splitext_lower. simpl. by rewrite lower_idem. Qed.

(** X15: the classification ignores letter case everywhere in the path: two
    paths that differ only in the case of their ASCII letters are both
    videos or both not. *)
Theorem X15_is_video_file_ignores_case (p q : string) :
  Py.lower p = Py.lower q → is_video_file p = is_video_file q.
Proof.
  intros H. rewrite <- (is_video_file_lower p), <- (is_video_file_lower q). by rewrite H.
Qed.

Lemma X15_witness : is_video_file "/Data/Clip.MkV" = is_video_file "/data/clip.mkv".
Proof. apply X15_is_video_file_ignores_case. reflexivity. Defined.

Lemma rfind_from_offset c s i last :
  Py.rfind_from c s i last
  = if Py.contains c s then (i + Py.rfind c s)%Z else last.
Proof.
  unfold Py.rfind. revert i last. induction s as [|a s IH]; intros i last; simpl; [done|].
  rewrite (IH (i + 1)%Z), (IH (0 + 1)%Z).
  destruct (Ascii.eqb a c), (Py.contains c s); simpl; lia.
Qed.

Lemma rfind_from_found c s i last :
  Py.contains c s = true → (last < i)%Z → (i ≤ Py.rfind_from c s i last)%Z.
Proof.
  revert i last. induction s as [|a s IH]; intros i last H Hlt; simpl in *; [done|].
  destruct (Ascii.eqb a c); simpl in H.
  - pose proof (rfind_from_bound c s (i + 1) i). lia.
  - specialize (IH (i + 1)%Z last H). lia.
Qed.

Lemma rfind_nonneg c s : Py.contains c s = true → (0 ≤ Py.rfind c s)%Z.
Proof. intros H. by apply rfind_from_found. Qed.

Lemma rfind_absent c s : Py.contains c s = false → Py.rfind c s = (-1)%Z.
Proof. intros H. by apply rfind_from_absent. Qed.

Lemma str_drop_drop n k s : Py.drop n (Py.drop k s) = Py.drop (k + n) s.
Proof.
  revert s. induction k as [|k IH]; intros s; [done|].
  destruct s as [|a s]; simpl; [by destruct n|]. apply IH.
Qed.

(** The extension of a path is that of its last component. *)
Lemma splitext_ext_basename d name :
  Py.contains "/" name = false →
  (Py.splitext (d +:+ "/" +:+ name)).2 = (Py.splitext name).2.
Proof.
  intros Hname. unfold Py.splitext, Py._splitext.
  set (p := d +:+ "/" +:+ name). set (n := String.length d).
  assert (Hdrop : Py.drop (S n) p = name).
  { unfold p, n. replace (S (String.length d)) with (String.length d + 1) by lia.
    rewrite <- (str_drop_drop 1 (String.length d)).
    by rewrite str_drop_app_length. }
  assert (Hsep : Py.rfind "/" p = Z.of_nat n).
  { unfold p, Py.rfind. rewrite rfind_from_app. rewrite str_app_cons, str_app_empty.
    simpl Py.rfind_from. rewrite rfind_from_absent by done. fold n. lia. }
  assert (Hdot : Py.rfind "." p
            = if Py.contains "." name then (Z.of_nat n + 1 + Py.rfind "." name)%Z
              else Py.rfind "." d).
  { unfold p. unfold Py.rfind at 1. rewrite rfind_from_app.
    rewrite str_app_cons, str_app_empty. simpl Py.rfind_from.
    rewrite rfind_from_offset. fold n. fold (Py.rfind "." d). done. }
  rewrite Hsep, Hdot, (rfind_absent "/" name Hname).
  destruct (Py.contains "." name) eqn:Hc.
  - pose proof (rfind_nonneg "." name Hc) as Hk.
    destruct (Z.ltb_spec (Z.of_nat n) (Z.of_nat n + 1 + Py.rfind "." name)); [|lia].
    destruct (Z.ltb_spec (-1) (Py.rfind "." name)); [|lia].
    unfold Py.slice.
    replace (Z.to_nat (Z.of_nat n + 1)) with (S n) by lia.
    replace (Z.to_nat (Z.of_nat n + 1 + Py.rfind "." name - (Z.of_nat n + 1)))
      with (Z.to_nat (Py.rfind "." name)) by lia.
    replace (Z.to_nat (Py.rfind "." name - (-1 + 1)))
      with (Z.to_nat (Py.rfind "." name)) by lia.
    rewrite Hdrop. simpl (Py.drop (Z.to_nat (-1 + 1)) name).
    destruct (Py.has_other "." _); [|done]. simpl.
    replace (Z.to_nat (Z.of_nat n + 1 + Py.rfind "." name))
      with (S n + Z.to_nat (Py.rfind "." name)) by lia.
    by rewrite <- str_drop_drop, Hdrop.
  - rewrite (rfind_absent "." name Hc).
    pose proof (rfind_from_bound "." d 0 (-1)) as Hb. fold (Py.rfind "." d) in Hb.
    destruct (Z.ltb_spec (Z.of_nat n) (Py.rfind "." d)); [unfold n in *; lia|].
    done.
Qed.

(** X16: the classification looks at the last component of the path only:
    the folders above it, whatever dots and extensions their names have, do
    not change the answer. *)
Theorem X16_is_video_file_ignores_folders (d name : string) :
  Py.contains "/" name = false →
  is_video_file (d +:+ "/" +:+ name) = is_video_file name.
Proof.
  intros Hname. unfold is_video_file. by rewrite splitext_ext_basename.
Qed.

Lemma X16_witness :
  is_video_file "/media/clips.mp4/notes.txt" = false
  ∧ is_video_file "/media/archive.d/clip.webm" = true.
Proof.
  split.
  - etrans; [exact (X16_is_video_file_ignores_folders "/media/clips.mp4" "notes.txt" eq_refl)|].
    reflexivity.
  - etrans; [exact (X16_is_video_file_ignores_folders "/media/archive.d" "clip.webm" eq_refl)|].
    reflexivity.
Defined.

(** ** The download script *)

Lemma AVAILABLE_MODELS_of_items : AVAILABLE_MODELS = list_to_map AVAILABLE_MODELS_items.
Proof. reflexivity. Qed.

Lemma items_have_repos :
  Forall (λ item : string * string, is_Some (HF_MODEL_MAPPING !! item.1))
    AVAILABLE_MODELS_items.
Proof. repeat constructor; by eexists. Qed.

Lemma table_item name path :
  AVAILABLE_MODELS !! name = Some path → (name, path) ∈ AVAILABLE_MODELS_items.
Proof.
  rewrite AVAILABLE_MODELS_of_items. apply elem_of_list_to_map_2.
Qed.

Lemma download_item_spec D item d :
  download_item D item d
  = (item_raises D item,
     {| disk_dirs := list_to_set (item_dirs D item) ∪ disk_dirs d;
        logged := logged d ++ item_log D item |}).
Proof.
  destruct item as [name path].
  unfold download_item, item_raises, item_dirs, item_log, item_result. simpl.
  destruct (HF_MODEL_MAPPING !! name) as [repo|]; simpl.
  - destruct (snapshot_download D repo path) as [|e dir_left]; simpl.
    + unfold log_call, add_dir. simpl. f_equal.
      f_equal; [by rewrite (right_id_L ∅ (∪))|by rewrite <- app_assoc].
    + destruct (is_Exception (exn_cls e)), dir_left; unfold log_call, add_dir; simpl;
        f_equal; f_equal;
        rewrite ?(right_id_L ∅ (∪)), ?(left_id_L ∅ (∪)), <- ?app_assoc; reflexivity.
  - unfold log_call. simpl. f_equal. f_equal. by rewrite (left_id_L ∅ (∪)).
Qed.

Lemma last_cons_cases {A} (x : A) l :
  last (x :: l) = match l with [] => Some x | _ => last l end.
Proof. by destruct l. Qed.

Lemma visited_nil D items : visited D items = [] → items = [].
Proof. by destruct items. Qed.

(** The loop: it ends as the iteration for the last item it went through
    ends, with the directories and the log lines of the items it went
    through. *)
Lemma download_loop_spec D items d :
  download_loop D items d
  = (last (visited D items) ≫= item_raises D,
     {| disk_dirs := list_to_set (flat_map (item_dirs D) (visited D items)) ∪ disk_dirs d;
        logged := logged d ++ flat_map (item_log D) (visited D items) |}).
Proof.
  revert d. induction items as [|item items IH]; intros d.
  - simpl. f_equal. destruct d. simpl.
    f_equal; [by rewrite (left_id_L ∅ (∪))|by rewrite app_nil_r].
  - cbn [download_loop visited]. rewrite download_item_spec.
    destruct (item_raises D item) as [e|] eqn:Hr.
    + cbn [last flat_map mbind option_bind]. rewrite Hr, !app_nil_r. reflexivity.
    + rewrite IH. cbn [disk_dirs logged flat_map]. f_equal.
      * rewrite last_cons_cases. destruct (visited D items) as [|v vs] eqn:Hv; [|done].
        simpl. by rewrite Hr.
      * f_equal; [|by rewrite <- app_assoc].
        apply set_eq. intros x.
        rewrite !elem_of_union, !elem_of_list_to_set, elem_of_app. tauto.
Qed.

Lemma settled_item_raises D item : settled D item → item_raises D item = None.
Proof.
  unfold settled, item_raises. intros [->|(e & dir_left & -> & ->)]; reflexivity.
Qed.

Lemma interrupted_item_raises D item e : interrupted_by D item e → item_raises D item = Some e.
Proof. unfold interrupted_by, item_raises. by intros (dir_left & -> & ->). Qed.

Lemma visited_settled D items : Forall (settled D) items → visited D items = items.
Proof.
  induction 1 as [|item items Hi _ IH]; [done|].
  cbn [visited]. by rewrite (settled_item_raises D item Hi), IH.
Qed.

Lemma visited_interrupted D pre item post e :
  Forall (settled D) pre → interrupted_by D item e →
  visited D (pre ++ item :: post) = pre ++ [item].
Proof.
  intros Hpre Hi. induction Hpre as [|p pre Hp _ IH]; cbn [visited app].
  - by rewrite (interrupted_item_raises D item e Hi).
  - by rewrite (settled_item_raises D p Hp), IH.
Qed.

Lemma settled_loop_ends D items :
  Forall (settled D) items → last items ≫= item_raises D = None.
Proof.
  intros H. destruct (last items) as [item|] eqn:Hl; [|done]. simpl.
  apply last_Some in Hl as [l' ->]. apply Forall_app in H as [_ H].
  apply settled_item_raises. by inversion H.
Qed.

Lemma item_log_length D item : settled D item → length (item_log D item) = 2.
Proof.
  unfold settled, item_log. by intros [->|(e & dir_left & -> & ->)].
Qed.

Lemma flat_map_item_log_length D items :
  Forall (settled D) items → length (flat_map (item_log D) items) = 2 * length items.
Proof.
  induction 1 as [|item items Hi _ IH]; [done|]. cbn [flat_map length].
  rewrite length_app, item_log_length, IH by done. lia.
Qed.

Lemma item_log_interrupted D item e :
  interrupted_by D item e → item_log D item = [(INFO, "Downloading model: " +:+ item.1)].
Proof. unfold interrupted_by, item_log. by intros (dir_left & -> & ->). Qed.

Lemma downloaded_item_dirs D items name path repo :
  (name, path) ∈ items → HF_MODEL_MAPPING !! name = Some repo →
  snapshot_download D repo path = Downloaded →
  path ∈ flat_map (item_dirs D) items.
Proof.
  intros Hin Hrepo Hok. apply list_elem_of_In, in_flat_map.
  exists (name, path). split; [by apply list_elem_of_In|].
  apply list_elem_of_In. unfold item_dirs, item_result. simpl. rewrite Hrepo. simpl.
  rewrite Hok. apply list_elem_of_here.
Qed.

(** X17: when the folder of the models cannot be created the script raises
    at once and does nothing.  Otherwise the folder is on disk and the
    script goes through the models of the table in order, logging the start
    of each download.  As long as every download succeeds or fails with an
    [Exception], the script does not raise: it logs two lines for each of
    the twelve models, the start and then the success or the error, a
    failing download does not stop the loop, and every model whose download
    succeeded is on disk in its directory at the end.  A download that is
    left by an exception that is no [Exception] (Ctrl-C) ends the script
    with that exception: the models before it were gone through as
    described, its own start is the last line logged, and no later model is
    started. *)
Theorem X17_download_models_goes_through_all (D : DownloadEnv) (d : Disk) :
  let r := download_models D d in
  (∀ msg, makedirs_error D = Some msg → r = (Some (Exn OSError msg), d))
  ∧ (makedirs_error D = None →
     "./models" ∈ disk_dirs r.2
     ∧ (Forall (settled D) AVAILABLE_MODELS_items →
        r.1 = None
        ∧ logged r.2 = logged d ++ flat_map (item_log D) AVAILABLE_MODELS_items
        ∧ length (logged r.2) = length (logged d) + 24
        ∧ ∀ name path repo,
            AVAILABLE_MODELS !! name = Some path →
            HF_MODEL_MAPPING !! name = Some repo →
            snapshot_download D repo path = Downloaded →
            path ∈ disk_dirs r.2)
     ∧ (∀ pre item post e,
          AVAILABLE_MODELS_items = pre ++ item :: post →
          Forall (settled D) pre →
          interrupted_by D item e →
          r.1 = Some e
          ∧ logged r.2
            = logged d ++ flat_map (item_log D) pre
              ++ [(INFO, "Downloading model: " +:+ item.1)]
          ∧ length (logged r.2) = length (logged d) + 2 * length pre + 1
          ∧ ∀ name path repo,
              (name, path) ∈ pre →
              HF_MODEL_MAPPING !! name = Some repo →
              snapshot_download D repo path = Downloaded →
              path ∈ disk_dirs r.2)).
Proof.
  intros r. split.
  { intros msg Hmk. unfold r, download_models. by rewrite Hmk. }
  intros Hmk.
  set (items := AVAILABLE_MODELS_items).
  assert (Hr : r = (last (visited D items) ≫= item_raises D,
              {| disk_dirs := list_to_set (flat_map (item_dirs D) (visited D items))
                              ∪ ({["./models"]} ∪ disk_dirs d);
                 logged := logged d ++ flat_map (item_log D) (visited D items) |})).
  { unfold r, download_models. rewrite Hmk.
    apply (download_loop_spec D items (add_dir "./models" d)). }
  assert (Hdirs : ∀ x, x ∈ disk_dirs r.2 ↔
            x ∈ flat_map (item_dirs D) (visited D items) ∨ x = "./models" ∨ x ∈ disk_dirs d).
  { intros x. rewrite Hr. cbn [snd disk_dirs].
    by rewrite !elem_of_union, elem_of_list_to_set, elem_of_singleton. }
  split; [|split].
  - apply Hdirs. right. by left.
  - intros Hall. pose proof (visited_settled D items Hall) as Hv.
    split; [rewrite Hr; cbn [fst]; rewrite Hv; by apply settled_loop_ends|].
    split; [rewrite Hr; cbn [snd logged]; by rewrite Hv|].
    split.
    + rewrite Hr. cbn [snd logged].
      rewrite Hv, length_app, (flat_map_item_log_length D items Hall). reflexivity.
    + intros name path repo Hpath Hrepo Hok. apply Hdirs. left. rewrite Hv.
      apply (downloaded_item_dirs D items name path repo); [|done..].
      by apply table_item.
  - intros pre item post e Hitems Hpre Hint.
    assert (Hv : visited D items = pre ++ [item]).
    { rewrite Hitems. by apply (visited_interrupted D pre item post e). }
    assert (Hlog : logged r.2 = logged d ++ flat_map (item_log D) pre
                                ++ [(INFO, "Downloading model: " +:+ item.1)]).
    { rewrite Hr, Hv. cbn [snd logged]. rewrite flat_map_app. cbn [flat_map].
      by rewrite (item_log_interrupted D item e Hint), app_nil_r. }
    split; [|split; [exact Hlog|split]].
    + rewrite Hr, Hv. cbn [fst]. rewrite last_snoc. simpl.
      by apply interrupted_item_raises.
    + rewrite Hlog, !length_app, (flat_map_item_log_length D pre Hpre). simpl. lia.
    + intros name path repo Hin Hrepo Hok. apply Hdirs. left. rewrite Hv.
      apply (downloaded_item_dirs D _ name path repo); [|done..].
      apply elem_of_app. by left.
Qed.

(** ** The logger *)

(** X18: whatever the registry holds for the name and whether or not a
    logger above it has a handler, after [get_logger] the logger has the
    level DEBUG and exactly one handler, the console handler at level INFO;
    calling [get_logger] again changes nothing, so no handler is ever
    duplicated; other loggers are left alone; and the handlers of the logger
    write every record of level INFO or above exactly once and no DEBUG
    record, although the logger itself lets DEBUG pass. *)
Theorem X18_get_logger_single_console_handler (name : string)
    (ancestor_handlers again : bool) (registry : gmap string Logger) :
  let reg := get_logger name ancestor_handlers registry in
  reg !! name
  = Some {| logger_level := Some DEBUG; handlers := [{| handler_level := INFO |}] |}
  ∧ get_logger name again reg = reg
  ∧ (∀ other, other ≠ name → reg !! other = registry !! other)
  ∧ (∀ l, console_writes name l reg = if decide (level_no INFO ≤ level_no l) then 1 else 0).
Proof.
  assert (Heq : ∀ b r, get_logger name b r
            = <[name := {| logger_level := Some DEBUG;
                           handlers := [{| handler_level := INFO |}] |}]> r).
  { intros b r. unfold get_logger. cbv zeta. simpl.
    destruct (r !! name) as [[lv hs]|]; simpl.
    - destruct hs as [|h hs]; simpl; [by destruct b|done].
    - by destruct b. }
  cbv zeta. rewrite !Heq. split; [apply lookup_insert_eq|]. split; [apply insert_insert_eq|].
  split; [intros other Hne; by apply lookup_insert_ne|].
  intros l. unfold console_writes. rewrite lookup_insert_eq. simpl.
  by destruct l.
Qed.

(** ** The further statements at concrete runs *)

Lemma sample_events_no_start ms : Forall (λ ev, ev ≠ Act Start) (sample_events ms).
Proof.
  unfold sample_events. constructor; [discriminate|]. constructor; [discriminate|].
  apply Forall_fmap. 
  assert (H : ∀ l, Forall (λ a, a ≠ Start) (sample_schedule l)).
  { fix IH 1. intros [|m1 [|m2 l]]; simpl; repeat (constructor; [discriminate|]);
      [constructor|constructor|apply IH]. }
  eapply Forall_impl; [apply H|]. intros a Ha [= ->]. done.
Qed.

Lemma sample_events_puts ms : ui_puts (sample_events ms) = ms.
Proof.
  unfold sample_events, ui_puts. simpl.
  revert ms. fix IH 1. intros [|m1 [|m2 l]]; simpl; [done..|].
  f_equal. f_equal. apply IH.
Qed.

Lemma X5_witness :
  let E := sample_env (stop_after 3) (stream_of sample_segments) in
  let ms := messages_of (transcription_worker E (state running_gui))
              (sample_worker {[tiny_dir]}) in
  let g' := ui_run (sample_events ms ++ [Act Tick]) running_gui in
  log_text g' = log_lines_of ms ∧ dialogs g' = [] ∧ result_queue g' = [].
Proof.
  cbv zeta.
  destruct (X5_pump_shows_logs_and_dialogs_in_order
              (sample_events (messages_of
                 (transcription_worker (sample_env (stop_after 3) (stream_of sample_segments))
                    (state running_gui)) (sample_worker {[tiny_dir]})))
              running_gui) as (Hlog & Hdlg & Hq).
  - reflexivity.
  - apply sample_events_no_start.
  - rewrite sample_events_puts in Hlog, Hdlg. split; [exact Hlog|]. split; [|exact Hq].
    rewrite Hdlg. vm_compute. reflexivity.
Defined.

Lemma X6_witness :
  let E := sample_env (stop_after 3) (stream_of sample_segments) in
  let ms := messages_of (transcription_worker E (state running_gui))
              (sample_worker {[tiny_dir]}) in
  let g' := ui_run (sample_events ms ++ [Act Tick]) running_gui in
  is_transcribing running_gui = true
  ∧ is_transcribing g' = false ∧ start_button g' = true ∧ stop_button g' = false.
Proof.
  cbv zeta. split; [reflexivity|].
  destruct (X6_every_job_gives_the_window_back
              (sample_env (stop_after 3) (stream_of sample_segments))
              (sample_worker {[tiny_dir]}) running_gui
              (sample_events (messages_of
                 (transcription_worker (sample_env (stop_after 3) (stream_of sample_segments))
                    (state running_gui)) (sample_worker {[tiny_dir]}))))
    as (H1 & H2 & H3 & _).
  - reflexivity.
  - by repeat split.
  - apply sample_events_no_start.
  - apply sample_events_puts.
  - by repeat split.
Defined.

Lemma X8_witness :
  let E := sample_env never_stopped (stream_of sample_segments) in
  dialogs_of (messages_of
                (transcription_worker broken_model_env (sample_state "/data/talk.mp3" "tiny"))
                (sample_worker {[tiny_dir]}))
  = [showerror "Error" ("An error occurred: " +:+ "Unable to open file 'model.bin'")]
  ∧ dialogs_of (messages_of (transcription_worker E (sample_state "/data/talk.mp3" "tiny"))
                  (sample_worker {[tiny_dir]}))
    = [showinfo "Success" "Transcription completed successfully!"]
  ∧ Forall (λ m, is_error m = false)
      (messages_of (transcription_worker E (sample_state "/data/talk.mp3" "tiny"))
         (sample_worker {[tiny_dir]})).
Proof.
  cbv zeta. split.
  - apply (proj1 (proj2 (X8_at_most_one_dialog_per_job broken_model_env
             (sample_state "/data/talk.mp3" "tiny") (sample_worker {[tiny_dir]})))
             (Exn OSError "Unable to open file 'model.bin'")).
    + vm_compute. reflexivity.
    + reflexivity.
  - assert (Hd : dialogs_of (messages_of
                   (transcription_worker (sample_env never_stopped (stream_of sample_segments))
                      (sample_state "/data/talk.mp3" "tiny")) (sample_worker {[tiny_dir]}))
                 = [showinfo "Success" "Transcription completed successfully!"])
      by (vm_compute; reflexivity).
    split; [exact Hd|].
    apply (proj2 (proj2 (proj2 (proj2 (X8_at_most_one_dialog_per_job
             (sample_env never_stopped (stream_of sample_segments))
             (sample_state "/data/talk.mp3" "tiny") (sample_worker {[tiny_dir]})))))).
    exact Hd.
Defined.

Lemma X9_witness :
  let E := sample_env stopped_at_once (stream_of sample_segments) in
  let st := sample_state "/data/talk.mp3" "tiny" in
  fs (transcription_worker E st (sample_worker {[tiny_dir]})).2 !! "/data/talk.txt"
  = Some "an older transcript".
Proof.
  cbv zeta.
  etrans; [exact (proj1 (X9_stop_before_writing_keeps_output
             (sample_env stopped_at_once (stream_of sample_segments))
             (sample_state "/data/talk.mp3" "tiny") (sample_worker {[tiny_dir]})
             eq_refl ltac:(intros name [= <-]; discriminate)))|].
  vm_compute. reflexivity.
Defined.

Lemma X10_witness :
  let E := sample_env never_stopped (stream_of sample_segments) in
  let st := sample_state "/data/talk.mp3" "tiny" in
  let w := sample_worker {[tiny_dir]} in
  fs (transcription_worker E st w).2
  = <["/data/talk.txt" := lines_of sample_segments]> (fs w)
  ∧ count_lines (lines_of sample_segments) = 10.
Proof.
  cbv zeta.
  destruct (X10_audio_job_end_to_end
              (sample_env never_stopped (stream_of sample_segments))
              (sample_state "/data/talk.mp3" "tiny") (sample_worker {[tiny_dir]})
              tiny_dir sample_segments sample_info) as (_ & Hfs & _ & Hlines).
  - reflexivity.
  - vm_compute; reflexivity.
  - vm_compute; reflexivity.
  - reflexivity.
  - reflexivity.
  - reflexivity.
  - reflexivity.
  - split; [exact Hfs|]. apply Hlines. repeat constructor.
Defined.

Lemma X11_witness :
  let E := sample_env never_stopped (stream_of sample_segments) in
  let st := sample_state "/data/talk.mp4" "tiny" in
  let final := (transcription_worker E st (sample_worker {[tiny_dir]})).2 in
  fs final !! "/data/talk.txt" = Some (lines_of sample_segments)
  ∧ fs final !! "/tmp/tmpk3v9x2.wav" = None.
Proof.
  cbv zeta.
  destruct (X11_video_job_end_to_end
              (sample_env never_stopped (stream_of sample_segments))
              (sample_state "/data/talk.mp4" "tiny") (sample_worker {[tiny_dir]})
              "/tmp/tmpk3v9x2.wav" tiny_dir
              {| audio := Some {| demuxed := "RIFF-WAVE-data"; demux_error := None |} |}
              {| demuxed := "RIFF-WAVE-data"; demux_error := None |}
              sample_segments sample_info) as (_ & Hout & Htmp & _);
    [first [discriminate | reflexivity | vm_compute; reflexivity | intros; reflexivity]..|].
  by split.
Defined.

Lemma X12_witness :
  let E := sample_env never_stopped crashing_stream in
  let st := sample_state "/data/talk.mp3" "tiny" in
  let w := sample_worker {[tiny_dir]} in
  fs (transcription_worker E st w).2 !! "/data/talk.txt"
  = Some (lines_of (take 2 sample_segments))
  ∧ Forall (λ m, is_success m = false) (messages_of (transcription_worker E st) w).
Proof.
  cbv zeta.
  destruct (X12_failure_mid_stream_keeps_written_lines
              (sample_env never_stopped crashing_stream)
              (sample_state "/data/talk.mp3" "tiny") (sample_worker {[tiny_dir]})
              (take 2 sample_segments) (SFail (Exn OtherException "decoder crashed"))
              (Exn OtherException "decoder crashed")) as (Hfs & _ & Hns).
  - vm_compute; reflexivity.
  - reflexivity.
  - intros i _. by split.
  - by left.
  - intros H. vm_compute in H. discriminate H.
  - by split.
Defined.

Lemma X13_witness :
  load_model (sample_env never_stopped SEnd) "tiny" (sample_worker {[tiny_dir]})
  = (Val tiny_dir, sample_worker {[tiny_dir]})
  ∧ load_model broken_model_env "tiny" (sample_worker {[tiny_dir]})
    = (Raise (Exn OSError "Unable to open file 'model.bin'"), sample_worker {[tiny_dir]}).
Proof.
  split.
  - apply (proj1 (X13_known_model_loads_or_fails (sample_env never_stopped SEnd)
                    "tiny" tiny_dir (sample_worker {[tiny_dir]}) eq_refl)).
    vm_compute; reflexivity.
  - apply (proj2 (X13_known_model_loads_or_fails broken_model_env
                    "tiny" tiny_dir (sample_worker {[tiny_dir]}) eq_refl));
      [reflexivity|discriminate|discriminate].
Defined.

Lemma X14_witness :
  let E := sample_env never_stopped SEnd in
  (load_model E "tiny" (sample_worker ∅)).1 = Val tiny_dir
  ∧ messages_of (load_model E "tiny") (sample_worker ∅)
    = [ Log "Model 'tiny' not found, downloading...";
        Log "Model 'tiny' downloaded successfully" ]
  ∧ tiny_dir ∈ model_dirs (load_model E "tiny" (sample_worker ∅)).2.
Proof.
  cbv zeta.
  destruct (X14_missing_model_is_downloaded (sample_env never_stopped SEnd) "tiny" tiny_dir
              (Exn HFValidationError
                 ("Repo id must be in the form 'repo_name' or 'namespace/repo_name': '"
                  +:+ tiny_dir +:+ "'"))
              (sample_worker ∅)) as (repo & _ & Hr & Hm & Hd).
  - reflexivity.
  - vm_compute; reflexivity.
  - reflexivity.
  - split; [|split; [exact Hm|]].
    + rewrite Hr. vm_compute. reflexivity.
    + rewrite Hd. apply elem_of_union_l, elem_of_singleton. reflexivity.
Defined.

Lemma X17_witness :
  let r := download_models sample_download_env empty_disk in
  let r' := download_models interrupted_download_env empty_disk in
  (r.1 = None ∧ length (logged r.2) = 24 ∧ tiny_dir ∈ disk_dirs r.2)
  ∧ (r'.1 = Some (Exn KeyboardInterrupt "")
     ∧ logged r'.2
       = [ (INFO, "Downloading model: tiny");
           (INFO, "Model tiny downloaded to ./models/models--Systran--faster-whisper-tiny");
           (INFO, "Downloading model: tiny.en");
           (ERROR, "Error downloading tiny.en: Connection reset by peer");
           (INFO, "Downloading model: base") ]).
Proof.
  cbv zeta. split.
  - destruct (proj1 (proj2 (proj2 (X17_download_models_goes_through_all sample_download_env
                               empty_disk) eq_refl))) as (Hr & _ & Hlen & Hin).
    + repeat (constructor;
                [first [ left; vm_compute; reflexivity
                       | right; eexists _, _; split; vm_compute; reflexivity ]|]).
      constructor.
    + split; [exact Hr|]. split; [exact Hlen|].
      apply (Hin "tiny" tiny_dir "Systran/faster-whisper-tiny"); reflexivity.
  - destruct (proj2 (proj2 (proj2 (X17_download_models_goes_through_all
                               interrupted_download_env empty_disk) eq_refl))
                [ ("tiny", "./models/models--Systran--faster-whisper-tiny");
                  ("tiny.en", "./models/models--Systran--faster-whisper-tiny.en") ]
                ("base", "./models/models--Systran--faster-whisper-base")
                (drop 3 AVAILABLE_MODELS_items)
                (Exn KeyboardInterrupt "")) as (Hr & Hlog & _).
    + reflexivity.
    + constructor; [left; vm_compute; reflexivity|].
      constructor; [right; eexists _, _; split; vm_compute; reflexivity|]. constructor.
    + exists true. split; vm_compute; reflexivity.
    + split; [exact Hr|]. etrans; [exact Hlog|]. vm_compute. reflexivity.
Defined.

Lemma X18_witness :
  let reg := get_logger "faster_whisper_gui" false ∅ in
  reg !! "root" = None
  ∧ console_writes "faster_whisper_gui" DEBUG reg = 0
  ∧ console_writes "faster_whisper_gui" ERROR (get_logger "faster_whisper_gui" true reg) = 1.
Proof.
  cbv zeta.
  destruct (X18_get_logger_single_console_handler "faster_whisper_gui" false true ∅)
    as (_ & Hagain & Hother & Hwrites).
  split; [by rewrite Hother|]. split; [by rewrite Hwrites|].
  rewrite Hagain. by rewrite Hwrites.
Defined.

(** ** The settings *)

Lemma ui_step_settings g ev :
  offered ev →
  is_Some (AVAILABLE_MODELS !! model_size (state g)) →
  language (state g) ∈ Language_values →
  is_Some (AVAILABLE_MODELS !! model_size (state (ui_step g ev)))
  ∧ language (state (ui_step g ev)) ∈ Language_values.
Proof.
  intros Hev Hm Hl. destruct ev as [[| | |m]| | | |]; cbn [ui_step step]; try done.
  - unfold start_transcription. by repeat case_match.
  - assert (H : state (check_queue g) = state g); [|by rewrite H].
    unfold check_queue. change (state g) with (state (set_queue [] g)).
    generalize (set_queue [] g). induction (result_queue g) as [|m ms IH]; intros g0; [done|].
    simpl. rewrite IH. destruct m as [k [d|]]; simpl; by repeat case_bool_decide.
  - unfold browse_audio. by repeat case_bool_decide.
  - unfold browse_output. by case_bool_decide.
Qed.

(** X19: through the controls of the window the settings stay within the
    tables: from the initial window, after any events in which the comboboxes
    select only values they offer, the model identifier is a key of
    [AVAILABLE_MODELS] and of [HF_MODEL_MAPPING], so the worker's lookup of
    the model directory does not raise [KeyError], and the language is one
    of the eight values of [Language]. *)
Theorem X19_settings_stay_within_tables (evs : list ui_event) :
  Forall offered evs →
  let st := state (ui_run evs initial_gui) in
  is_Some (AVAILABLE_MODELS !! model_size st)
  ∧ is_Some (HF_MODEL_MAPPING !! model_size st)
  ∧ language st ∈ Language_values
  ∧ ∀ w, ∃ path, getitem AVAILABLE_MODELS (model_size st) w = (Val path, w).
Proof.
  intros Hevs.
  assert (H : is_Some (AVAILABLE_MODELS !! model_size (state (ui_run evs initial_gui)))
              ∧ language (state (ui_run evs initial_gui)) ∈ Language_values).
  { assert (H0 : is_Some (AVAILABLE_MODELS !! model_size (state initial_gui))
                 ∧ language (state initial_gui) ∈ Language_values).
    { split; [by eexists|]. apply list_elem_of_here. }
    revert H0. generalize initial_gui. unfold ui_run.
    induction Hevs as [|ev evs Hev _ IH]; intros g [Hm Hl]; [done|].
    simpl. apply IH. by apply ui_step_settings. }
  cbv zeta. destruct H as [[path Hpath] Hl].
  split; [by eexists|]. split; [by apply (known_model_has_repo _ path)|].
  split; [exact Hl|]. intros w. exists path. unfold getitem. by rewrite Hpath.
Qed.

Lemma X19_witness :
  let st := state (ui_run [BrowseAudio "/data/talk.mp3"; SelectModel "large-v3";
                           SelectLanguage "de"; Act Start] initial_gui) in
  model_size st = "large-v3"
  ∧ is_Some (HF_MODEL_MAPPING !! model_size st)
  ∧ language st ∈ Language_values.
Proof.
  cbv zeta. split; [reflexivity|].
  destruct (X19_settings_stay_within_tables
              [BrowseAudio "/data/talk.mp3"; SelectModel "large-v3";
               SelectLanguage "de"; Act Start]) as (_ & Hrepo & Hlang & _).
  - constructor; [exact I|]. constructor; [by eexists|].
    constructor; [|constructor; [exact I|constructor]].
    unfold offered, Language_values. rewrite !elem_of_cons. tauto.
  - by split.
Defined.

(** ** Resolution of the identifier the window holds *)






